(** * dmssvc: the ffprobe cache, its persistence and the server supervisor

    A shallow embedding of [dms.go] and [main.go].  Go functions that talk
    to the operating system are written in a small state monad over a
    [world] (file system, injected faults, random source, network
    interfaces and an event trace); [log.Fatal] ends the computation with
    [Exited].  The random-replacement cache, the JSON codec and the address
    parsers are libraries the program imports; they appear here as a model
    or as interfaces. *)

From Stdlib Require Import ZArith Lia String Ascii List DecimalString.
From stdpp Require Import base option list gmap fin_maps strings.

Open Scope Z_scope.

(** ** Go values shared by every component *)

Definition bytes := list Byte.byte.

(** System error numbers carried inside [*PathError] and [*LinkError]. *)
Inductive Errno := ENOENT | EEXIST | EACCES | ENOSPC | EIO | EBUSY.

(** Go [error] values.  [ErrNotExist] is the sentinel [os.ErrNotExist];
    the functions of package [os] never return it as such, they return a
    [*PathError] (or [*LinkError]) that wraps a system error number. *)
Inductive error :=
  | ErrNotExist
  | PathError (op path : string) (e : Errno)
  | LinkError (op old new : string) (e : Errno)
  | JSONError (msg : string)
  | NetError (msg : string)
  | ServerError (e : Errno).

#[global] Instance Errno_eq_dec : EqDecision Errno.
Proof. solve_decision. Defined.

#[global] Instance error_eq_dec : EqDecision error.
Proof. solve_decision. Defined.

(** Go's [err == os.ErrNotExist] on interface values: same dynamic type and
    same value. *)
Definition err_is (err : option error) (sentinel : error) : bool :=
  bool_decide (err = Some sentinel).

(** [int64(z)]: two's complement wrap-around. *)
Definition int64 (z : Z) : Z := (z + 2 ^ 63) mod 2 ^ 64 - 2 ^ 63.

(** [net.Interface], with the fields [getInterfaces] reads. *)
Record Interface := {
  if_Index : Z;
  if_MTU : Z;
  if_Name : string;
  if_Flags : Z
}.

(** [net.FlagUp]. *)
Definition FlagUp : Z := 1.

(** [net.IP] and [net.IPNet] as byte lists. *)
Record IPNet := { ipn_IP : list Z; ipn_Mask : list Z }.

#[global] Instance IPNet_eq_dec : EqDecision IPNet.
Proof. solve_decision. Defined.

(** A Go result pair [(value, err)]: the value when [err == nil]. *)
Inductive res (A : Type) :=
  | Val (a : A)
  | Err (e : error).
Arguments Val {A} _.
Arguments Err {A} _.

(** ** The libraries the program is linked against *)

(** [encoding/json] on the opaque payloads, and on the two item slices the
    program encodes and decodes. *)

(** Modelled from the spec: [rrcache.Item], the element type of the
    snapshot returned by [Items()] (the [rrcache] package is not part of
    the sources); section 6 gives each record a key and a value field. *)
Record Item (any : Type) := mkItem { Key : any; Value : any }.
Arguments mkItem {any} _ _.
Arguments Key {any} _.
Arguments Value {any} _.

(** Modelled from the spec: [dms.FfprobeCacheItem], the element type
    [load] decodes into (the [dms] package is not part of the sources):
    a key field and a value field. *)
Record FfprobeCacheItem (any : Type) := mkCacheItem { ci_Key : any; ci_Value : any }.
Arguments mkCacheItem {any} _ _.
Arguments ci_Key {any} _.
Arguments ci_Value {any} _.

Definition to_cache_item {any} (it : Item any) : FfprobeCacheItem any :=
  mkCacheItem (Key it) (Value it).

Class JSON (any : Type) := {
  json_Marshal : any -> res bytes;
  json_MarshalItems : list (Item any) -> res bytes;
  json_UnmarshalItems : bytes -> res (list (FfprobeCacheItem any))
}.

(** [path/filepath]. *)
Class Filepath := {
  filepath_Dir : string -> string;
  filepath_Base : string -> string;
  filepath_Join : string -> string -> string
}.

(** [net.ParseIP] and [net.ParseCIDR]. *)
Class NetParse := {
  net_ParseIP : string -> option (list Z);
  net_ParseCIDR : string -> res (list Z * IPNet)
}.

(** Reference instances: payloads are single characters, each marshalled
    to its one byte; the character ["?"] cannot be marshalled.  A
    snapshot is the concatenation of its records, two bytes each. *)
Definition char_marshal (c : ascii) : res bytes :=
  if Ascii.eqb c "?" then Err (JSONError "unsupported value")
  else Val [byte_of_ascii c].

Fixpoint char_marshal_items (l : list (Item ascii)) : res bytes :=
  match l with
  | [] => Val []
  | it :: l' =>
      match char_marshal (Key it), char_marshal (Value it), char_marshal_items l' with
      | Val k, Val v, Val r => Val (k ++ v ++ r)
      | Err e, _, _ => Err e
      | _, Err e, _ => Err e
      | _, _, Err e => Err e
      end
  end.

Fixpoint char_unmarshal_items (b : bytes) : res (list (FfprobeCacheItem ascii)) :=
  match b with
  | [] => Val []
  | [_] => Err (JSONError "unexpected end of JSON input")
  | k :: v :: r =>
      match char_unmarshal_items r with
      | Val l => Val (mkCacheItem (ascii_of_byte k) (ascii_of_byte v) :: l)
      | Err e => Err e
      end
  end.

#[global] Instance char_JSON : JSON ascii := {
  json_Marshal := char_marshal;
  json_MarshalItems := char_marshal_items;
  json_UnmarshalItems := char_unmarshal_items
}.

(** A flat directory: every path is a bare file name. *)
#[global] Instance flat_Filepath : Filepath := {
  filepath_Dir := fun _ => "."%string;
  filepath_Base := fun p => p;
  filepath_Join := fun _ f => f
}.

(** Addresses in dotted-quad form are enough for the reference parser:
    ["0.0.0.0/0"] and ["::/0"] are the two universal networks, a bare
    ["a.b.c.d"] is an address, anything else is rejected. *)
Definition net4_all : IPNet := {| ipn_IP := [0; 0; 0; 0]; ipn_Mask := [0; 0; 0; 0] |}.
Definition net6_all : IPNet :=
  {| ipn_IP := repeat 0 16; ipn_Mask := repeat 0 16 |}.

Definition digit_val (c : ascii) : option Z :=
  let n := Z.of_nat (nat_of_ascii c) in
  if (48 <=? n) && (n <=? 57) then Some (n - 48) else None.

Fixpoint parse_dec (s : string) (acc : Z) : option Z :=
  match s with
  | EmptyString => Some acc
  | String c s' =>
      match digit_val c with
      | Some d => parse_dec s' (10 * acc + d)
      | None => None
      end
  end.

Definition parse_octet (s : string) : option Z :=
  match s with
  | EmptyString => None
  | _ => match parse_dec s 0 with
         | Some n => if n <=? 255 then Some n else None
         | None => None
         end
  end.

(** [strings.Split(s, sep)] for a one-character separator. *)
Fixpoint strings_Split (s : string) (sep : ascii) : list string :=
  match s with
  | EmptyString => [EmptyString]
  | String c s' =>
      if Ascii.eqb c sep then EmptyString :: strings_Split s' sep
      else match strings_Split s' sep with
           | h :: t => String c h :: t
           | [] => [String c EmptyString]
           end
  end.

Definition parse_quad (s : string) : option (list Z) :=
  match strings_Split s "." with
  | [a; b; c; d] =>
      match parse_octet a, parse_octet b, parse_octet c, parse_octet d with
      | Some a, Some b, Some c, Some d => Some [a; b; c; d]
      | _, _, _, _ => None
      end
  | _ => None
  end.

Definition mask_of (n : Z) : list Z :=
  map (fun i => let k := Z.min 8 (Z.max 0 (n - 8 * i)) in 256 - 2 ^ (8 - k)) [0; 1; 2; 3].

Definition quad_ParseCIDR (s : string) : res (list Z * IPNet) :=
  if String.eqb s "::/0" then Val (repeat 0 16, net6_all)
  else match strings_Split s "/" with
       | [a; m] =>
           match parse_quad a, parse_octet m with
           | Some ip, Some n =>
               if n <=? 32 then
                 Val (ip, {| ipn_IP := zip_with Z.land ip (mask_of n); ipn_Mask := mask_of n |})
               else Err (NetError "invalid CIDR address")
           | _, _ => Err (NetError "invalid CIDR address")
           end
       | _ => Err (NetError "invalid CIDR address")
       end.

#[global] Instance quad_NetParse : NetParse := {
  net_ParseIP := parse_quad;
  net_ParseCIDR := quad_ParseCIDR
}.

(** ** The world the program runs in *)

Inductive logger := GlobalLog | ProgramLog.

(** What a log call prints, by call site. *)
Inductive logmsg (any : Type) :=
  | LogStr (s : string)
  | LogErr (e : error)
  | LogErrf (prefix : string) (e : error)
  | LogCouldNotMarshal (v : any) (e : error)
  | LogAddedItems (n : nat)
  | LogSavedCache (n : nat)
  | LogUnableParseExpr (el : string)
  | LogUnableParseIP (el : string).
Arguments LogStr {any} _.
Arguments LogErr {any} _.
Arguments LogErrf {any} _ _.
Arguments LogCouldNotMarshal {any} _ _.
Arguments LogAddedItems {any} _.
Arguments LogSavedCache {any} _.
Arguments LogUnableParseExpr {any} _.
Arguments LogUnableParseIP {any} _.

(** Everything the program does to its environment, in program order,
    with the outcome the environment gave. *)
Inductive event (any : Type) :=
  | EvLog (l : logger) (m : logmsg any)
  | EvOpen (name : string) (r : res string)
  | EvDecode (name : string) (r : option error)
  | EvCreateTemp (dir pattern : string) (r : res string)
  | EvEncode (name : string) (r : option error)
  | EvCloseFile (name : string)
  | EvRemove (name : string) (r : option error)
  | EvRename (old new : string) (r : option error)
  | EvInterfaces (r : option error)
  | EvListen (r : option error)
  | EvIcons (r : option error)
  | EvServerInit (bound : list Interface) (r : option error)
  | EvServerClose (bound : list Interface) (r : option error)
  | EvGoServerRun (bound : list Interface)
  | EvGoRun
  | EvSleep
  | EvCloseQuit
  | EvWgDone
  | EvWgWait
  | EvExit (code : Z).
Arguments EvLog {any} _ _.
Arguments EvOpen {any} _ _.
Arguments EvDecode {any} _ _.
Arguments EvCreateTemp {any} _ _ _.
Arguments EvEncode {any} _ _.
Arguments EvCloseFile {any} _.
Arguments EvRemove {any} _ _.
Arguments EvRename {any} _ _ _.
Arguments EvInterfaces {any} _.
Arguments EvListen {any} _.
Arguments EvIcons {any} _.
Arguments EvServerInit {any} _ _.
Arguments EvServerClose {any} _ _.
Arguments EvGoServerRun {any} _.
Arguments EvGoRun {any}.
Arguments EvSleep {any}.
Arguments EvCloseQuit {any}.
Arguments EvWgDone {any}.
Arguments EvWgWait {any}.
Arguments EvExit {any} _.

(** The calls into the environment that may fail. *)
Inductive syscall :=
  | SysOpen | SysRead | SysCreateTemp | SysWrite | SysRemove | SysRename
  | SysInterfaces | SysListen | SysIcons | SysServerInit | SysServerClose.

(** [GOOS] is [runtime.GOOS]; [fault] tells, for a call and the name it
    is applied to, whether the environment makes it fail and with which
    error number; [rand] feeds temporary names, short writes and
    evictions. *)
Record world (any : Type) := mkWorld {
  GOOS : string;
  fs : gmap string bytes;
  fault : syscall -> string -> option Errno;
  rand : list nat;
  netifs : list Interface;
  trace : list (event any)
}.
Arguments mkWorld {any} _ _ _ _ _ _.
Arguments GOOS {any} _.
Arguments fs {any} _.
Arguments fault {any} _ _ _.
Arguments rand {any} _.
Arguments netifs {any} _.
Arguments trace {any} _.

(** The outcome of a computation: it returns, or the process has exited. *)
Inductive result (A : Type) :=
  | Ok (a : A)
  | Exited (code : Z).
Arguments Ok {A} _.
Arguments Exited {A} _.

Definition M (any A : Type) : Type := world any -> result A * world any.

Definition ret {any A} (a : A) : M any A := fun w => (Ok a, w).

Definition bind {any A B} (m : M any A) (k : A -> M any B) : M any B :=
  fun w => match m w with
           | (Ok a, w') => k a w'
           | (Exited c, w') => (Exited c, w')
           end.

Notation "x <- m ;; k" := (bind m (fun x => k))
  (at level 100, m at next level, right associativity).
Notation "m ;;; k" := (bind m (fun _ => k))
  (at level 100, right associativity).

Definition get_world {any} : M any (world any) := fun w => (Ok w, w).

Definition set_fs {any} (f : gmap string bytes) : M any unit :=
  fun w => (Ok tt, mkWorld (GOOS w) f (fault w) (rand w) (netifs w) (trace w)).

Definition emit {any} (e : event any) : M any unit :=
  fun w => (Ok tt, mkWorld (GOOS w) (fs w) (fault w) (rand w) (netifs w) (trace w ++ [e])).

Definition get_fault {any} (c : syscall) (name : string) : M any (option Errno) :=
  fun w => (Ok (fault w c name), w).

Definition next_rand {any} : M any nat :=
  fun w => (Ok (hd O (rand w)),
            mkWorld (GOOS w) (fs w) (fault w) (tl (rand w)) (netifs w) (trace w)).

(** The world after the events [evs] have been added to its trace. *)
Definition with_events {any} (w : world any) (evs : list (event any)) : world any :=
  mkWorld (GOOS w) (fs w) (fault w) (rand w) (netifs w) (trace w ++ evs).

(** The world with its random source replaced. *)
Definition with_rand {any} (w : world any) (rnd : list nat) : world any :=
  mkWorld (GOOS w) (fs w) (fault w) rnd (netifs w) (trace w).

(** [os.Exit(code)]. *)
Definition os_Exit {any A} (code : Z) : M any A :=
  fun w => (Exited code,
            mkWorld (GOOS w) (fs w) (fault w) (rand w) (netifs w) (trace w ++ [EvExit code])).

(** [log.Printf], [log.Print], [p.logger.Print...]. *)
Definition log_Print {any} (l : logger) (m : logmsg any) : M any unit :=
  emit (EvLog l m).

(** [log.Fatal], [log.Fatalf]: print, then [os.Exit(1)]. *)
Definition log_Fatal {any A} (m : logmsg any) : M any A :=
  log_Print GlobalLog m ;;; os_Exit 1.

Section Program.
Context {any : Type} `{Countable any} `{!JSON any} `{!Filepath} `{!NetParse}.

Abbreviation world := (world any).
Abbreviation M := (M any).
Abbreviation event := (event any).

(** ** Package [os] over the modelled file system

    Every call first asks whether the environment fails it; a failed
    call does not touch the file system. *)

Definition os_Open (name : string) : M (res string) :=
  flt <- get_fault SysOpen name ;;
  w <- get_world ;;
  let r := match flt with
           | Some e => Err (PathError "open" name e)
           | None => match fs w !! name with
                     | Some _ => Val name
                     | None => Err (PathError "open" name ENOENT)
                     end
           end in
  emit (EvOpen name r) ;;; ret r.

Definition file_Close (name : string) : M unit := emit (EvCloseFile name).

(** The decimal text [os.CreateTemp] appends to the pattern. *)
Definition random_suffix (n : nat) : string := NilZero.string_of_uint (Nat.to_uint n).

(** [os.CreateTemp(dir, pattern)]: a new empty file whose name is the
    pattern followed by a random decimal string; a name that is already
    taken fails the call (the library retries with other names first). *)
Definition os_CreateTemp (dir pattern : string) : M (res string) :=
  flt <- get_fault SysCreateTemp (filepath_Join dir pattern) ;;
  n <- next_rand ;;
  w <- get_world ;;
  let name := filepath_Join dir (pattern +:+ random_suffix n) in
  match flt with
  | Some e =>
      let r := Err (PathError "createtemp" (filepath_Join dir pattern) e) in
      emit (EvCreateTemp dir pattern r) ;;; ret r
  | None =>
      match fs w !! name with
      | Some _ =>
          let r := Err (PathError "createtemp" (filepath_Join dir pattern) EEXIST) in
          emit (EvCreateTemp dir pattern r) ;;; ret r
      | None =>
          set_fs (<[name := []]> (fs w)) ;;;
          emit (EvCreateTemp dir pattern (Val name)) ;;;
          ret (Val name)
      end
  end.

(** The name of a temporary file is never the path it was derived from:
    [os.CreateTemp] appends a non-empty decimal string to the base name. *)
Definition temp_name_fresh : Prop :=
  forall path n,
    filepath_Join (filepath_Dir path) (filepath_Base path +:+ random_suffix n) <> path.

(** [os.Remove(name)]. *)
Definition os_Remove (name : string) : M (option error) :=
  flt <- get_fault SysRemove name ;;
  w <- get_world ;;
  match flt with
  | Some e =>
      let r := Some (PathError "remove" name e) in
      emit (EvRemove name r) ;;; ret r
  | None =>
      match fs w !! name with
      | None =>
          let r := Some (PathError "remove" name ENOENT) in
          emit (EvRemove name r) ;;; ret r
      | Some _ =>
          set_fs (delete name (fs w)) ;;;
          emit (EvRemove name None) ;;;
          ret None
      end
  end.

(** [os.Rename(old, new)]: replaces [new] when it exists. *)
Definition os_Rename (old new : string) : M (option error) :=
  flt <- get_fault SysRename old ;;
  w <- get_world ;;
  match flt with
  | Some e =>
      let r := Some (LinkError "rename" old new e) in
      emit (EvRename old new r) ;;; ret r
  | None =>
      match fs w !! old with
      | None =>
          let r := Some (LinkError "rename" old new ENOENT) in
          emit (EvRename old new r) ;;; ret r
      | Some b =>
          set_fs (<[new := b]> (delete old (fs w))) ;;;
          emit (EvRename old new None) ;;;
          ret None
      end
  end.

(** [json.NewEncoder(f).Encode(items)]: marshal, then one write.  A
    marshalling error writes nothing; a failed write may leave a prefix
    of the text in the file. *)
Definition json_Encode (f : string) (items : list (Item any)) : M (option error) :=
  match json_MarshalItems items with
  | Err e => emit (EvEncode f (Some e)) ;;; ret (Some e)
  | Val b =>
      flt <- get_fault SysWrite f ;;
      w <- get_world ;;
      match flt with
      | Some e =>
          n <- next_rand ;;
          set_fs (<[f := take n b]> (fs w)) ;;;
          emit (EvEncode f (Some (PathError "write" f e))) ;;;
          ret (Some (PathError "write" f e))
      | None =>
          set_fs (<[f := b]> (fs w)) ;;;
          emit (EvEncode f None) ;;;
          ret None
      end
  end.

(** [json.NewDecoder(f).Decode(&items)]. *)
Definition json_Decode (f : string) : M (res (list (FfprobeCacheItem any))) :=
  flt <- get_fault SysRead f ;;
  w <- get_world ;;
  let r := match flt with
           | Some e => Err (PathError "read" f e)
           | None => match fs w !! f with
                     | Some b => json_UnmarshalItems b
                     | None => Err (PathError "read" f ENOENT)
                     end
           end in
  emit (EvDecode f (match r with Val _ => None | Err e => Some e end)) ;;;
  ret r.

(** ** The random-replacement cache *)

Record entry := mkEntry { e_value : any; e_size : Z }.

Record RRCache := mkCache { capacity : Z; table : gmap any entry }.

(** Modelled from the spec: [rrcache.New] (package [rrcache] is not part
    of the sources); capacity is fixed at construction. *)
Definition rr_New (cap : Z) : RRCache := mkCache cap ∅.

(** Modelled from the spec: the cumulative size of the entries. *)
Definition rr_total (t : gmap any entry) : Z :=
  map_fold (fun _ e acc => acc + e_size e) 0 t.

(** Modelled from the spec: [RRCache.Get], a plain lookup. *)
Definition rr_Get (c : RRCache) (key : any) : option any :=
  e_value <$> table c !! key.

(** Modelled from the spec: [RRCache.Items], a snapshot of all entries
    (their order carries no meaning). *)
Definition rr_Items (c : RRCache) : list (Item any) :=
  (fun kv => mkItem kv.1 (e_value kv.2)) <$> map_to_list (table c).

(** Modelled from the spec: eviction after an insertion.  While the total
    exceeds the capacity, an existing entry other than the one just
    admitted is chosen at random and dropped; it stops when the total is
    within capacity or nothing else can be evicted, so a single oversized
    item is tolerated. *)
Fixpoint rr_evict (fuel : nat) (key : any) (cap : Z) (t : gmap any entry)
    (rnd : list nat) : gmap any entry * list nat :=
  match fuel with
  | O => (t, rnd)
  | S fuel' =>
      if decide (rr_total t <= cap) then (t, rnd)
      else match (map_to_list (delete key t)).*1 with
           | [] => (t, rnd)
           | x :: xs =>
               let i := (hd O rnd mod length (x :: xs))%nat in
               rr_evict fuel' key cap (delete (nth i (x :: xs) x) t) (tl rnd)
           end
  end.

(** Modelled from the spec: [RRCache.Set(key, value, size)]. *)
Definition rr_Set (c : RRCache) (key value : any) (size : Z) (rnd : list nat)
    : RRCache * list nat :=
  let t := <[key := mkEntry value size]> (table c) in
  let '(t', rnd') := rr_evict (stdpp.base.size t) key (capacity c) t rnd in
  (mkCache (capacity c) t', rnd').

Definition cache_Set (c : RRCache) (key value : any) (size : Z) : M RRCache :=
  fun w =>
    let '(c', rnd') := rr_Set c key value size (rand w) in
    (Ok c', mkWorld (GOOS w) (fs w) (fault w) rnd' (netifs w) (trace w)).

(** ** [fFprobeCache]: the cache behind its mutex

    The embedding is sequential, so [Lock] and [Unlock] leave no mark. *)

Definition fFprobeCache_Get (fc : RRCache) (key : any) : option any * bool :=
  match rr_Get fc key with
  | Some v => (Some v, true)
  | None => (None, false)
  end.

(** The loop of [Set] over [[]interface{}{key, value}]. *)
Fixpoint Set_size (vs : list any) (size : Z) : M Z :=
  match vs with
  | [] => ret size
  | v :: vs' =>
      match json_Marshal v with
      | Err err =>
          log_Print GlobalLog (LogCouldNotMarshal v err) ;;;
          Set_size vs' size
      | Val b => Set_size vs' (int64 (size + int64 (Z.of_nat (length b))))
      end
  end.

Definition fFprobeCache_Set (fc : RRCache) (key value : any) : M RRCache :=
  size <- Set_size [key; value] 0 ;;
  cache_Set fc key value size.

(** What one component adds to the size in [Set], and what [Set] logs for
    it: the length of its JSON text, or nothing and a log line when it
    cannot be marshalled. *)
Definition contribution (v : any) : Z :=
  match json_Marshal v with
  | Val b => Z.of_nat (length b)
  | Err _ => 0
  end.

Definition marshal_log (v : any) : list event :=
  match json_Marshal v with
  | Val _ => []
  | Err e => [EvLog GlobalLog (LogCouldNotMarshal v e)]
  end.

(** A marshalled text fits in memory, far below the range of [int64]. *)
Definition marshal_fits (v : any) : Prop :=
  forall b, json_Marshal v = Val b -> Z.of_nat (length b) < 2 ^ 62.

(** The insertions [load] makes, on the cache alone: each decoded record
    goes through the underlying [Set] with a size computed from the
    record's key and value. *)
Fixpoint reinserted (fc : RRCache) (rnd : list nat)
    (items : list (FfprobeCacheItem any)) : RRCache * list nat :=
  match items with
  | [] => (fc, rnd)
  | item :: items' =>
      let '(fc', rnd') :=
        rr_Set fc (ci_Key item) (ci_Value item)
          (contribution (ci_Key item) + contribution (ci_Value item)) rnd in
      reinserted fc' rnd' items'
  end.

Definition reinserted_log (items : list (FfprobeCacheItem any)) : list event :=
  flat_map (fun item => marshal_log (ci_Key item) ++ marshal_log (ci_Value item)) items.

(** The states of the program's cache: built by [rrcache.New] with a
    capacity that is not negative (it is [64 << 20]) and changed by [Set]
    alone. *)
Inductive reachable : RRCache -> Prop :=
  | reachable_New cap : 0 <= cap -> reachable (rr_New cap)
  | reachable_Set fc key value w fc' w' :
      reachable fc ->
      fFprobeCache_Set fc key value w = (Ok fc', w') ->
      reachable fc'.

(** What [Set] keeps true of the cache: every entry carries the size
    [Set] computes for it, and the total is within capacity unless the
    cache holds a single item. *)
Definition cache_wf (fc : RRCache) : Prop :=
  0 <= capacity fc /\
  (forall k e, table fc !! k = Some e ->
     e_size e = contribution k + contribution (e_value e)) /\
  (rr_total (table fc) <= capacity fc \/ (stdpp.base.size (table fc) <= 1)%nat).

(** Decoding the text of a snapshot gives back its records. *)
Definition codec_roundtrip : Prop :=
  forall items b,
    json_MarshalItems items = Val b ->
    json_UnmarshalItems b = Val (to_cache_item <$> items).

Definition all_fit : Prop := forall v, marshal_fits v.

(** The sizes of a list of entries added up, and the records a list of
    entries is decoded to. *)
Definition sum_sizes (l : list (any * entry)) : Z :=
  foldr (fun kv acc => acc + e_size kv.2) 0 l.

Definition items_of (l : list (any * entry)) : list (FfprobeCacheItem any) :=
  (fun kv => mkCacheItem kv.1 (e_value kv.2)) <$> l.

(** The loop of [load] over the decoded items. *)
Fixpoint load_items (fc : RRCache) (items : list (FfprobeCacheItem any)) : M RRCache :=
  match items with
  | [] => ret fc
  | item :: items' =>
      fc' <- fFprobeCache_Set fc (ci_Key item) (ci_Value item) ;;
      load_items fc' items'
  end.

Definition load (fc : RRCache) (path : string) : M (RRCache * option error) :=
  r <- os_Open path ;;
  match r with
  | Err err => ret (fc, Some err)
  | Val f =>
      r <- json_Decode f ;;
      match r with
      | Err err => file_Close f ;;; ret (fc, Some err)
      | Val items =>
          fc' <- load_items fc items ;;
          log_Print GlobalLog (LogAddedItems (length items)) ;;;
          file_Close f ;;;
          ret (fc', None)
      end
  end.

Definition save (fc : RRCache) (path : string) : M (option error) :=
  let items := rr_Items fc in
  r <- os_CreateTemp (filepath_Dir path) (filepath_Base path) ;;
  match r with
  | Err err => ret (Some err)
  | Val f =>
      err <- json_Encode f items ;;
      file_Close f ;;;
      match err with
      | Some e => os_Remove f ;;; ret (Some e)
      | None =>
          w <- get_world ;;
          err <- (if String.eqb (GOOS w) "windows" then
                    err <- os_Remove path ;;
                    ret (if err_is err ErrNotExist then None else err)
                  else ret None) ;;
          err <- (match err with
                  | None => os_Rename f path
                  | Some _ => ret err
                  end) ;;
          match err with
          | None => log_Print GlobalLog (LogSavedCache (length items)) ;;; ret err
          | Some _ => os_Remove f ;;; ret err
          end
      end
  end.


(** ** The supervisor: [program], [getInterfaces], [newDmsServer] *)

(** The fields of the global [config] the modelled functions read. *)
Record dmsConfig := mkConfig {
  IfName : string;
  FFprobeCachePath : string
}.

Variable config : dmsConfig.

(** [dms.Server] is a black box bound to the interfaces it was built
    with; its methods are calls into the environment. *)
Record Server := mkServer { Interfaces : list Interface }.

Definition Server_Init (srv : Server) : M (option error) :=
  flt <- get_fault SysServerInit "" ;;
  let r := ServerError <$> flt in
  emit (EvServerInit (Interfaces srv) r) ;;; ret r.

Definition Server_Close (srv : Server) : M (option error) :=
  flt <- get_fault SysServerClose "" ;;
  let r := ServerError <$> flt in
  emit (EvServerClose (Interfaces srv) r) ;;; ret r.

(** [program] of [main.go]: [wg] is the wait-group counter, [quit_closed]
    tells whether the [quit] channel has been closed. *)
Record program := mkProgram {
  dmsServer : Server;
  cache : RRCache;
  wg : Z;
  quit_closed : bool
}.

Definition net_Interfaces : M (list Interface * option error) :=
  flt <- get_fault SysInterfaces "" ;;
  w <- get_world ;;
  match flt with
  | Some e =>
      let err := NetError "route ip+net" in
      emit (EvInterfaces (Some err)) ;;; ret ([], Some err)
  | None => emit (EvInterfaces None) ;;; ret (netifs w, None)
  end.

Definition net_InterfaceByName (name : string) : M (option Interface * option error) :=
  flt <- get_fault SysInterfaces name ;;
  w <- get_world ;;
  match flt with
  | Some e =>
      let err := NetError "route ip+net" in
      emit (EvInterfaces (Some err)) ;;; ret (None, Some err)
  | None =>
      match List.find (fun i => String.eqb (if_Name i) name) (netifs w) with
      | Some i => emit (EvInterfaces None) ;;; ret (Some i, None)
      | None =>
          let err := NetError "no such network interface" in
          emit (EvInterfaces (Some err)) ;;; ret (None, Some err)
      end
  end.

(** The filter loop of [getInterfaces]. *)
Fixpoint up_interfaces (ifs tmp : list Interface) : list Interface :=
  match ifs with
  | [] => tmp
  | if_ :: ifs' =>
      if (Z.land (if_Flags if_) FlagUp =? 0) || (if_MTU if_ <=? 0)
      then up_interfaces ifs' tmp
      else up_interfaces ifs' (tmp ++ [if_])
  end.

Definition getInterfaces (ifName : string) : M (list Interface) :=
  r <- (if String.eqb ifName "" then net_Interfaces
        else r <- net_InterfaceByName ifName ;;
             ret (match r.1 with Some if_ => [if_] | None => [] end, r.2)) ;;
  (match r.2 with
   | Some err => log_Fatal (LogErr err)
   | None => ret tt
   end) ;;;
  ret (up_interfaces r.1 []).

(** [newDmsServer]: the listener first, then the icons; either may end
    the process. *)
Definition newDmsServer (ifs : list Interface) : M Server :=
  flt <- get_fault SysListen "" ;;
  (match flt with
   | Some e =>
       emit (EvListen (Some (NetError "listen tcp"))) ;;;
       log_Fatal (LogErr (NetError "listen tcp"))
   | None => emit (EvListen None)
   end) ;;;
  flt <- get_fault SysIcons "" ;;
  (match flt with
   | Some e =>
       emit (EvIcons (Some (PathError "open" "icon" e))) ;;;
       log_Fatal (LogStr "bad device icon size: ")
   | None => emit (EvIcons None)
   end) ;;;
  ret (mkServer ifs).

(** One iteration of the monitor loop of [runErr]. *)
Definition monitor_tick (p : program) : M program :=
  emit EvSleep ;;;
  ifs <- getInterfaces (IfName config) ;;
  if (length (Interfaces (dmsServer p)) <? length ifs)%nat then
    err <- Server_Close (dmsServer p) ;;
    (match err with
     | Some e => log_Fatal (LogErrf "error closing dms server: " e)
     | None => ret tt
     end) ;;;
    srv <- newDmsServer ifs ;;
    let p := mkProgram srv (cache p) (wg p) (quit_closed p) in
    err <- Server_Init (dmsServer p) ;;
    (match err with
     | Some e => log_Fatal (LogErrf "error initing dms server: " e)
     | None => ret tt
     end) ;;;
    emit (EvGoServerRun (Interfaces (dmsServer p))) ;;;
    ret p
  else ret p.

(** The first [ticks] iterations of the loop [for { ... }]. *)
Fixpoint monitor_loop (ticks : nat) (p : program) : M program :=
  match ticks with
  | O => ret p
  | S n => p' <- monitor_tick p ;; monitor_loop n p'
  end.

(** [runErr] from the point where [config] is complete: the cache is
    built and loaded, the first server is started, and the two goroutines
    are launched (the monitor loop itself is [monitor_loop]). *)
Definition runErr_cache (p : program) : M program :=
  let p := mkProgram (dmsServer p) (rr_New (Z.shiftl 64 20)) (wg p) (quit_closed p) in
  r <- load (cache p) (FFprobeCachePath config) ;;
  let p := mkProgram (dmsServer p) r.1 (wg p) (quit_closed p) in
  (match r.2 with
   | Some err => log_Print GlobalLog (LogErr err)
   | None => ret tt
   end) ;;;
  ret p.


(** ** [Start] and [Stop] as two threads

    [Stop] runs on the caller's thread while the goroutine launched by
    [Start] waits for the quit channel.  Each thread has a program
    counter; a step of the system is a step of either thread. *)

Inductive bg_pc :=
  | BgStarting      (* log.Println("Starting...") *)
  | BgGoRun         (* go p.run() *)
  | BgRecvQuit      (* <-p.quit *)
  | BgQuitReceived  (* log.Println("Quit signal received...") *)
  | BgWgDone        (* p.wg.Done() *)
  | BgExited.

Inductive stop_pc :=
  | StStopping      (* p.logger.Println("Stopping...") *)
  | StClose         (* p.dmsServer.Close(), log.Fatal on error *)
  | StSave          (* p.cache.save(...), p.logger.Print on error *)
  | StCloseQuit     (* close(p.quit) *)
  | StWgWait        (* p.wg.Wait() *)
  | StStopped       (* p.logger.Println("Stopped.") *)
  | StReturned (r : option error).

Record sys := mkSys {
  sys_world : world;
  sys_prog : program;
  sys_bg : bg_pc;
  sys_stop : stop_pc;
  sys_exited : bool
}.

(** [Start]: a fresh quit channel, [wg.Add(1)], and the goroutine. *)
Definition Start (p : program) (w : world) : sys :=
  mkSys w (mkProgram (dmsServer p) (cache p) (wg p + 1) false) BgStarting StStopping false.

(** Run one action of a thread and move its counter; an exit of the
    process stops every thread. *)
Definition advance_stop (s : sys) (m : M unit) (p : program) (pc : stop_pc) : sys :=
  match m (sys_world s) with
  | (Ok _, w') => mkSys w' p (sys_bg s) pc false
  | (Exited _, w') => mkSys w' (sys_prog s) (sys_bg s) (sys_stop s) true
  end.

Definition advance_bg (s : sys) (m : M unit) (p : program) (pc : bg_pc) : sys :=
  match m (sys_world s) with
  | (Ok _, w') => mkSys w' p pc (sys_stop s) false
  | (Exited _, w') => mkSys w' (sys_prog s) (sys_bg s) (sys_stop s) true
  end.

Definition Stop_step (s : sys) : option sys :=
  let p := sys_prog s in
  if sys_exited s then None else
  match sys_stop s with
  | StStopping =>
      Some (advance_stop s (log_Print ProgramLog (LogStr "Stopping...")) p StClose)
  | StClose =>
      Some (advance_stop s
              (err <- Server_Close (dmsServer p) ;;
               match err with
               | Some e => log_Fatal (LogErr e)
               | None => ret tt
               end) p StSave)
  | StSave =>
      Some (advance_stop s
              (err <- save (cache p) (FFprobeCachePath config) ;;
               match err with
               | Some e => log_Print ProgramLog (LogErr e)
               | None => ret tt
               end) p StCloseQuit)
  | StCloseQuit =>
      Some (advance_stop s (emit EvCloseQuit)
              (mkProgram (dmsServer p) (cache p) (wg p) true) StWgWait)
  | StWgWait =>
      if wg p =? 0 then Some (advance_stop s (emit EvWgWait) p StStopped) else None
  | StStopped =>
      Some (advance_stop s (log_Print ProgramLog (LogStr "Stopped.")) p (StReturned None))
  | StReturned _ => None
  end.

Definition Start_goroutine_step (s : sys) : option sys :=
  let p := sys_prog s in
  if sys_exited s then None else
  match sys_bg s with
  | BgStarting =>
      Some (advance_bg s (log_Print GlobalLog (LogStr "Starting...")) p BgGoRun)
  | BgGoRun => Some (advance_bg s (emit EvGoRun) p BgRecvQuit)
  | BgRecvQuit =>
      if quit_closed p then Some (advance_bg s (ret tt) p BgQuitReceived) else None
  | BgQuitReceived =>
      Some (advance_bg s (log_Print GlobalLog (LogStr "Quit signal received...")) p BgWgDone)
  | BgWgDone =>
      Some (advance_bg s (emit EvWgDone)
              (mkProgram (dmsServer p) (cache p) (wg p - 1) (quit_closed p)) BgExited)
  | BgExited => None
  end.

Inductive step (s s' : sys) : Prop :=
  | step_stop : Stop_step s = Some s' -> step s s'
  | step_bg : Start_goroutine_step s = Some s' -> step s s'.

(** Executions under a schedule: [true] lets [Stop] move, [false] the
    goroutine; a blocked thread leaves the state as it is. *)
Fixpoint run_sched (sched : list bool) (s : sys) : sys :=
  match sched with
  | [] => s
  | b :: sched' =>
      let next := if b then Stop_step s else Start_goroutine_step s in
      run_sched sched' (default s next)
  end.

(** Every thread named by the schedule can move when its turn comes. *)
Fixpoint sched_ok (sched : list bool) (s : sys) : bool :=
  match sched with
  | [] => true
  | b :: sched' =>
      match (if b then Stop_step s else Start_goroutine_step s) with
      | Some s' => sched_ok sched' s'
      | None => false
      end
  end.

(** How far each thread has come. *)
Definition stop_rank (pc : stop_pc) : nat :=
  match pc with
  | StStopping => 0
  | StClose => 1
  | StSave => 2
  | StCloseQuit => 3
  | StWgWait => 4
  | StStopped => 5
  | StReturned _ => 6
  end.

Definition bg_rank (pc : bg_pc) : nat :=
  match pc with
  | BgStarting => 0
  | BgGoRun => 1
  | BgRecvQuit => 2
  | BgQuitReceived => 3
  | BgWgDone => 4
  | BgExited => 5
  end.

(** Events by kind. *)
Definition is_CreateTemp (e : event) : bool :=
  match e with EvCreateTemp _ _ _ => true | _ => false end.

Definition is_CloseQuit (e : event) : bool :=
  match e with EvCloseQuit => true | _ => false end.

Definition is_WgDone (e : event) : bool :=
  match e with EvWgDone => true | _ => false end.

(** [save] was attempted: its first call, [os.CreateTemp], is in the
    trace. *)
Definition save_attempted (tr : list event) : Prop :=
  existsb is_CreateTemp tr = true.

(** What holds of every state the two threads can reach in [n] steps
    from [Start p w]. *)
Definition Stop_inv (w : world) (n : nat) (s : sys) : Prop :=
  let tr := trace (sys_world s) in
  let sr := stop_rank (sys_stop s) in
  let br := bg_rank (sys_bg s) in
  fault (sys_world s) = fault w
  /\ wg (sys_prog s) = (if (br =? 5)%nat then 0 else 1)
  /\ quit_closed (sys_prog s) = (4 <=? sr)%nat
  /\ ((3 <= br)%nat -> (4 <= sr)%nat)
  /\ ((5 <= sr)%nat -> br = 5%nat)
  /\ n = (sr + br + (if sys_exited s then 1 else 0))%nat
  /\ existsb is_CreateTemp tr = (3 <=? sr)%nat
  /\ existsb is_CloseQuit tr = (4 <=? sr)%nat
  /\ existsb is_WgDone tr = (br =? 5)%nat
  /\ (forall r, sys_stop s = StReturned r -> r = None)
  /\ (sys_exited s = true ->
      sr = 1%nat /\
      exists e, fault w SysServerClose "" = Some e /\
                In (EvLog GlobalLog (LogErr (ServerError e))) tr /\
                last tr = Some (EvExit 1))
  /\ (sys_exited s = false -> (2 <= sr)%nat -> fault w SysServerClose "" = None).

(** ** [makeIpNets] *)

(** The loop of [makeIpNets] over the elements of the list; a
    [*net.IPNet] is an [option], [nil] being [None]. *)
Fixpoint makeIpNets_loop (els : list string) (nets : list (option IPNet))
    : M (list (option IPNet)) :=
  match els with
  | [] => ret nets
  | el :: els' =>
      match net_ParseIP el with
      | None =>
          match net_ParseCIDR el with
          | Val r => makeIpNets_loop els' (nets ++ [Some r.2])
          | Err _ =>
              log_Print GlobalLog (LogUnableParseExpr el) ;;;
              makeIpNets_loop els' nets
          end
      | Some _ =>
          match net_ParseCIDR (el +:+ "/32") with
          | Val r => makeIpNets_loop els' (nets ++ [Some r.2])
          | Err _ =>
              log_Print GlobalLog (LogUnableParseIP el) ;;;
              makeIpNets_loop els' nets
          end
      end
  end.

(** The network pointer [net.ParseCIDR] hands back: [nil] on error. *)
Definition cidr_net (r : res (list Z * IPNet)) : option IPNet :=
  match r with
  | Val r => Some r.2
  | Err _ => None
  end.

Definition makeIpNets (s : string) : M (list (option IPNet)) :=
  let nets := [] in
  if (String.length s <? 1)%nat then
    let ipnet := cidr_net (net_ParseCIDR "0.0.0.0/0") in
    let nets := nets ++ [ipnet] in
    let ipnet := cidr_net (net_ParseCIDR "::/0") in
    let nets := nets ++ [ipnet] in
    ret nets
  else makeIpNets_loop (strings_Split s ",") nets.

(** What one element of the list contributes: the network it parses to,
    if any, and the line logged when it does not parse. *)
Definition element_net (el : string) : option IPNet :=
  match net_ParseIP el with
  | None => cidr_net (net_ParseCIDR el)
  | Some _ => cidr_net (net_ParseCIDR (el +:+ "/32"))
  end.

Definition element_log (el : string) : list event :=
  match net_ParseIP el with
  | None =>
      match net_ParseCIDR el with
      | Val _ => []
      | Err _ => [EvLog GlobalLog (LogUnableParseExpr el)]
      end
  | Some _ =>
      match net_ParseCIDR (el +:+ "/32") with
      | Val _ => []
      | Err _ => [EvLog GlobalLog (LogUnableParseIP el)]
      end
  end.

(** An interface that passes the filter of [getInterfaces]. *)
Definition is_up (if_ : Interface) : Prop :=
  Z.land (if_Flags if_) FlagUp <> 0 /\ 0 < if_MTU if_.

End Program.

(** ** What the remaining lemmas speak about *)

(** The test of the filter loop of [getInterfaces], on one interface. *)
Definition passes_filter (if_ : Interface) : bool :=
  negb ((Z.land (if_Flags if_) FlagUp =? 0) || (if_MTU if_ <=? 0)).

(** How often a character occurs in a string. *)
Fixpoint count_char (c : ascii) (s : string) : nat :=
  match s with
  | EmptyString => O
  | String c' s' => ((if Ascii.eqb c' c then 1 else 0) + count_char c s')%nat
  end.

(** The second world is the first one with a longer trace and possibly
    less left of the random source: same system, files, faults and
    interfaces. *)
Definition same_env {any} (w w' : world any) : Prop :=
  GOOS w' = GOOS w /\ fs w' = fs w /\ fault w' = fault w /\ netifs w' = netifs w /\
  exists evs, trace w' = trace w ++ evs.

(** ** Device icons: [getIconReader], [readIcon], [resizeImage] and the
    [Icons] closure of [newDmsServer]

    [newDmsServer] above takes the whole closure as one call into the
    environment; here it is written out. *)

(** [strconv.Atoi]: the number when [err == nil]. *)
Class StrConv := { strconv_Atoi : string -> option Z }.

(** Packages [image], [resize] and [image/png]. *)
Class Imaging := {
  Image : Type;
  image_Decode : bytes -> res Image;
  resize_Resize : Z -> Z -> Image -> Image;
  png_Encode : Image -> bytes
}.

(** [dms.Icon], with the fields the closure sets. *)
Record Icon := mkIcon {
  Width : Z;
  Height : Z;
  Depth : Z;
  Mimetype : string;
  Bytes : bytes
}.

(** [uint(z)] on a 64-bit platform. *)
Definition uint (z : Z) : Z := z mod 2 ^ 64.

(** What [getIconReader] hands back: a reader over the embedded picture,
    or an open file. *)
Inductive iconReader :=
  | DefaultIconReader
  | FileReader (name : string).

(** Reference instances: decimal numbers with an optional sign, within
    the range of [int]; a picture is its bytes, scaled by cutting it to
    the first [width] of them when it has more. *)
Definition dec_Atoi (s : string) : option Z :=
  let signed (neg : bool) (digits : string) : option Z :=
    match digits with
    | EmptyString => None
    | _ => match parse_dec digits 0 with
           | Some n =>
               let z := if neg then - n else n in
               if (- 2 ^ 63 <=? z) && (z <? 2 ^ 63) then Some z else None
           | None => None
           end
    end in
  match s with
  | String "-" d => signed true d
  | String "+" d => signed false d
  | _ => signed false s
  end.

#[global] Instance dec_StrConv : StrConv := { strconv_Atoi := dec_Atoi }.

#[global] Instance raw_Imaging : Imaging := {
  Image := bytes;
  image_Decode := fun b => Val b;
  resize_Resize := fun width _ img =>
    if width <? Z.of_nat (length img) then take (Z.to_nat width) img else img;
  png_Encode := fun img => img
}.

Section Icons.
Context {any : Type} `{!StrConv} `{!Imaging}.

Abbreviation M := (M any).
Abbreviation event := (event any).

(** The embedded picture [defaultIcon] and the two fields of [config]
    the closure reads. *)
Variable defaultIcon : bytes.
Variable DeviceIcon : string.
Variable DeviceIconSizes : list string.

(** An unrecovered [panic(err)]: the message is printed and the process
    ends with status 2. *)
Definition go_panic {A} (err : error) : M A :=
  log_Print GlobalLog (LogErrf "panic: " err) ;;; os_Exit 2.

Definition getIconReader (path : string) : M (res iconReader) :=
  if String.eqb path "" then ret (Val DefaultIconReader)
  else
    r <- os_Open path ;;
    ret (match r with
         | Val f => Val (FileReader f)
         | Err err => Err err
         end).

(** [image.Decode(r)]: the bytes behind the reader, decoded. *)
Definition reader_Decode (r : iconReader) : M (res Image) :=
  d <- (match r with
        | DefaultIconReader => ret (image_Decode defaultIcon)
        | FileReader f =>
            flt <- get_fault SysRead f ;;
            w <- get_world ;;
            ret (match flt with
                 | Some e => Err (PathError "read" f e)
                 | None => match fs w !! f with
                           | Some b => image_Decode b
                           | None => Err (PathError "read" f ENOENT)
                           end
                 end)
        end) ;;
  emit (EvIcons (match d with Val _ => None | Err err => Some err end)) ;;;
  ret d.

(** [r.Close()]: closing the reader over the embedded picture does
    nothing. *)
Definition reader_Close (r : iconReader) : M unit :=
  match r with
  | DefaultIconReader => ret tt
  | FileReader f => file_Close f
  end.

Definition resizeImage (imageData : Image) (size : Z) : bytes :=
  let img := resize_Resize size size imageData in
  png_Encode img.

(** [readIcon]; the deferred [r.Close()] runs on return and while a
    panic unwinds. *)
Definition readIcon (path : string) (size : Z) : M bytes :=
  r <- getIconReader path ;;
  match r with
  | Err err => go_panic err
  | Val r =>
      d <- reader_Decode r ;;
      match d with
      | Err err => reader_Close r ;;; go_panic err
      | Val imageData =>
          let b := resizeImage imageData size in
          reader_Close r ;;; ret b
      end
  end.

(** The loop of the [Icons] closure over [config.DeviceIconSizes]. *)
Fixpoint Icons_loop (sizes : list string) (icons : list Icon) : M (list Icon) :=
  match sizes with
  | [] => ret icons
  | size :: sizes' =>
      let s := strings_Split size ":" in
      (if negb (length s =? 1)%nat && negb (length s =? 2)%nat
       then log_Fatal (LogStr ("bad device icon size: " +:+ size))
       else ret tt) ;;;
      match strconv_Atoi (nth 0 s "") with
      | None => log_Fatal (LogStr ("bad device icon size: " +:+ size))
      | Some advertisedSize =>
          actualSize <-
            (if (length s =? 2)%nat then
               match strconv_Atoi (nth 1 s "") with
               | None => log_Fatal (LogStr ("bad device icon size: " +:+ size))
               | Some n => ret n
               end
             else ret advertisedSize) ;;
          b <- readIcon DeviceIcon (uint actualSize) ;;
          Icons_loop sizes'
            (icons ++ [mkIcon advertisedSize advertisedSize 8 "image/png" b])
      end
  end.

Definition newDmsServer_Icons : M (list Icon) := Icons_loop DeviceIconSizes [].





End Icons.

(** ** Example worlds *)

Definition no_fault : syscall -> string -> option Errno := fun _ _ => None.

#[global] Instance syscall_eq_dec : EqDecision syscall.
Proof. solve_decision. Defined.

Definition fail_on (c : syscall) (name : string) (e : Errno)
    : syscall -> string -> option Errno :=
  fun c' name' =>
    if bool_decide (c' = c) && String.eqb name' name then Some e else None.

Definition eth0 : Interface :=
  {| if_Index := 2; if_MTU := 1500; if_Name := "eth0"; if_Flags := 19 |}.
Definition wlan0 : Interface :=
  {| if_Index := 3; if_MTU := 1500; if_Name := "wlan0"; if_Flags := 19 |}.
Definition tun0 : Interface :=
  {| if_Index := 4; if_MTU := 1400; if_Name := "tun0"; if_Flags := 16 |}.

Definition w_linux : world ascii :=
  mkWorld "linux" ∅ no_fault [7%nat] [eth0; tun0; wlan0] [].

Definition w_windows : world ascii :=
  mkWorld "windows" ∅ no_fault [7%nat] [eth0; tun0; wlan0] [].

Definition w_with (flt : syscall -> string -> option Errno) : world ascii :=
  mkWorld "linux" ∅ flt [7%nat; 1%nat] [eth0; tun0; wlan0] [].

Definition cfg : dmsConfig := mkConfig "" "cache".

Definition c_empty : RRCache (any:=ascii) := rr_New 100.

(** The cache after [Set("k", "v")]. *)
Definition c_one : RRCache (any:=ascii) :=
  match fFprobeCache_Set c_empty "k"%char "v"%char w_linux with
  | (Ok c, _) => c
  | (Exited _, _) => c_empty
  end.

Definition p0 : program (any:=ascii) := mkProgram (mkServer [eth0]) c_one 0 false.

(** A world whose file ["cache"] holds the record ["k"], ["v"]. *)
Definition w_snapshot : world ascii :=
  mkWorld "linux" {[ "cache"%string := [byte_of_ascii "k"; byte_of_ascii "v"] ]}
    no_fault [] [] [].

(** A schedule that lets [Stop] run up to its wait, then the goroutine
    to its end, then [Stop] to its return. *)
Definition full_run : list bool :=
  [true; true; true; true; false; false; false; false; false; true; true].

Definition w_close_fails : world ascii := w_with (fail_on SysServerClose "" EIO).
Definition w_write_fails : world ascii := w_with (fail_on SysWrite "cache7" ENOSPC).
Definition w_rename_fails : world ascii := w_with (fail_on SysRename "cache7" EACCES).

(** Windows with a snapshot already at ["cache"], and the same with a
    rename that fails. *)
Definition w_windows_snapshot (flt : syscall -> string -> option Errno) : world ascii :=
  mkWorld "windows" {[ "cache"%string := [byte_of_ascii "o"; byte_of_ascii "l"] ]}
    flt [7%nat] [eth0; tun0; wlan0] [].

(** A world whose file ["cache"] is cut short. *)
Definition w_truncated : world ascii :=
  mkWorld "linux" {[ "cache"%string := [byte_of_ascii "k"] ]} no_fault [] [] [].


(** Linux with a snapshot already at ["cache"]. *)
Definition w_linux_snapshot (flt : syscall -> string -> option Errno) : world ascii :=
  mkWorld "linux" {[ "cache"%string := [byte_of_ascii "o"; byte_of_ascii "l"] ]}
    flt [7%nat] [eth0; tun0; wlan0] [].

(** The embedded picture. *)
Definition icon_bytes : bytes := [byte_of_ascii "i"; byte_of_ascii "c"; byte_of_ascii "o"].

(** A directory that holds a picture, though not the configured one. *)
Definition w_icon : world ascii :=
  mkWorld "linux" {[ "icon.png"%string := [byte_of_ascii "i"; byte_of_ascii "c"] ]}
    no_fault [] [] [].


(** * Properties *)

Section Properties.
Context {any : Type} `{Countable any} `{!JSON any} `{!Filepath} `{!NetParse}.
Variable config : dmsConfig.

Abbreviation world := (world any).
Abbreviation M := (M any).
Abbreviation event := (event any).

Ltac run_M :=
  unfold log_Fatal in *;
  unfold log_Print, os_Exit, file_Close in *;
  unfold bind, ret, emit, get_world, set_fs, get_fault, next_rand,
    with_events in *;
  simpl in *.

Lemma with_events_nil (w : world) : with_events w [] = w.
Proof. destruct w; unfold with_events; simpl; by rewrite app_nil_r. Qed.

Lemma with_events_app (w : world) evs1 evs2 :
  with_events (with_events w evs1) evs2 = with_events w (evs1 ++ evs2).
Proof. unfold with_events; simpl; by rewrite app_assoc. Qed.

Lemma int64_small z : - 2 ^ 63 <= z < 2 ^ 63 -> int64 z = z.
Proof.
  intros Hz. unfold int64.
  rewrite Z.mod_small by lia. lia.
Qed.

Lemma contribution_range v : marshal_fits v -> 0 <= contribution v < 2 ^ 62.
Proof.
  unfold marshal_fits, contribution. intros Hfit.
  destruct (json_Marshal v) as [b|e]; [|lia].
  specialize (Hfit b eq_refl). lia.
Qed.

(** The size loop of [Set] adds up the contributions and logs the
    components that could not be marshalled, in order. *)
Lemma Set_size_two key value (w : world) :
  marshal_fits key -> marshal_fits value ->
  Set_size [key; value] 0 w =
    (Ok (contribution key + contribution value),
     with_events w (marshal_log key ++ marshal_log value)).
Proof.
  intros Hk Hv.
  pose proof (contribution_range key Hk) as Rk.
  pose proof (contribution_range value Hv) as Rv.
  unfold contribution, marshal_log in *. simpl.
  destruct (json_Marshal key) as [bk|ek], (json_Marshal value) as [bv|ev];
    run_M; rewrite ?app_nil_r; destruct w; simpl;
    (apply pair_equal_spec; split;
     [ f_equal;
       rewrite ?(int64_small (Z.of_nat _)) by lia;
       rewrite ?(int64_small (0 + _)) by lia;
       rewrite ?int64_small by lia; lia
     | rewrite <- ?app_assoc; reflexivity ]).
Qed.

Lemma fFprobeCache_Set_eq (fc : RRCache) key value (w : world) :
  marshal_fits key -> marshal_fits value ->
  fFprobeCache_Set fc key value w =
    cache_Set fc key value (contribution key + contribution value)
      (with_events w (marshal_log key ++ marshal_log value)).
Proof.
  intros Hk Hv. unfold fFprobeCache_Set, bind.
  by rewrite Set_size_two.
Qed.

(** C6: when marshalling the key or the value fails in [Set], the failure
    is logged, the failed component counts for zero, and the underlying
    cache is still asked to store the pair, with the sum of the remaining
    components' text lengths as its size. *)
Theorem Set_marshal_failure_counts_zero (fc : RRCache) key value (w : world) :
  marshal_fits key -> marshal_fits value ->
  fFprobeCache_Set fc key value w =
    cache_Set fc key value (contribution key + contribution value)
      (with_events w (marshal_log key ++ marshal_log value))
  /\ (forall v e, json_Marshal v = Err e ->
        contribution v = 0 /\
        marshal_log v = [EvLog GlobalLog (LogCouldNotMarshal v e)])
  /\ (forall v b, json_Marshal v = Val b ->
        contribution v = Z.of_nat (length b) /\ marshal_log v = []).
Proof.
  intros Hk Hv. split; [by apply fFprobeCache_Set_eq|].
  unfold contribution, marshal_log.
  split; intros v x Hx; by rewrite Hx.
Qed.

Lemma cache_Set_eq (fc : RRCache) key value size (w : world) :
  cache_Set fc key value size w =
    (Ok (rr_Set fc key value size (rand w)).1,
     with_rand w (rr_Set fc key value size (rand w)).2).
Proof. unfold cache_Set. by destruct (rr_Set _ _ _ _ _). Qed.

Lemma load_items_eq (fc : RRCache) items (w : world) :
  Forall (fun item => marshal_fits (ci_Key item) /\ marshal_fits (ci_Value item)) items ->
  load_items fc items w =
    (Ok (reinserted fc (rand w) items).1,
     with_rand (with_events w (reinserted_log items)) (reinserted fc (rand w) items).2).
Proof.
  intros Hfit. revert fc w.
  induction Hfit as [|item items [Hk Hv] _ IH]; intros fc w.
  - simpl. unfold ret, with_rand, with_events. simpl.
    destruct w; simpl. by rewrite app_nil_r.
  - simpl. unfold bind at 1.
    rewrite fFprobeCache_Set_eq, cache_Set_eq by done.
    destruct (rr_Set fc _ _ _ _) as [fc' rnd'] eqn:Hset. simpl.
    rewrite IH. unfold with_rand, with_events. simpl.
    by rewrite <- !app_assoc.
Qed.

(** C1 (as the code has it): on a path that names no file, [load]
    returns the error of [os.Open] and leaves the cache as it was;
    [runErr] logs that error and goes on with the empty cache. *)
Theorem load_missing_file_returns_open_error (fc : RRCache) (p : program) path (w : world) :
  fs w !! path = None ->
  let err := PathError "open" path (default ENOENT (fault w SysOpen path)) in
  load fc path w = (Ok (fc, Some err), with_events w [EvOpen path (Err err)])
  /\ (FFprobeCachePath config = path ->
      runErr_cache config p w =
        (Ok (mkProgram (dmsServer p) (rr_New (Z.shiftl 64 20)) (wg p) (quit_closed p)),
         with_events w [EvOpen path (Err err); EvLog GlobalLog (LogErr err)])).
Proof.
  intros Hmiss err.
  assert (Hload : forall c, load c path w =
            (Ok (c, Some err), with_events w [EvOpen path (Err err)])).
  { intros c. unfold load, os_Open. run_M. rewrite Hmiss. subst err.
    by destruct (fault w SysOpen path). }
  split; [apply Hload|].
  intros Hpath. unfold runErr_cache. simpl. rewrite Hpath.
  unfold bind at 1. rewrite Hload. run_M.
  by rewrite <- app_assoc.
Qed.

Lemma load_readable (fc : RRCache) path b items (w : world) :
  fs w !! path = Some b ->
  fault w SysOpen path = None ->
  fault w SysRead path = None ->
  json_UnmarshalItems b = Val items ->
  Forall (fun item => marshal_fits (ci_Key item) /\ marshal_fits (ci_Value item)) items ->
  load fc path w =
    (Ok ((reinserted fc (rand w) items).1, None),
     with_rand
       (with_events w
          ([EvOpen path (Val path); EvDecode path None] ++ reinserted_log items ++
           [EvLog GlobalLog (LogAddedItems (length items)); EvCloseFile path]))
       (reinserted fc (rand w) items).2).
Proof.
  intros Hfile Hopen Hread Hdec Hfit.
  unfold load, os_Open, json_Decode. run_M.
  rewrite Hopen, Hfile. simpl. rewrite Hread, Hfile, Hdec. simpl.
  rewrite load_items_eq by done. simpl.
  unfold with_rand, with_events. simpl.
  by rewrite <- !app_assoc.
Qed.

(** C8: on a readable snapshot that decodes to [items], [load] puts every
    record through [Set]; the size handed to the underlying cache is
    computed at that moment from the record's key and value, the file
    carrying no size at all. *)
Theorem load_reinserts_each_record (fc : RRCache) path b items (w : world) :
  fs w !! path = Some b ->
  fault w SysOpen path = None ->
  fault w SysRead path = None ->
  json_UnmarshalItems b = Val items ->
  Forall (fun item => marshal_fits (ci_Key item) /\ marshal_fits (ci_Value item)) items ->
  load fc path w =
    (Ok ((reinserted fc (rand w) items).1, None),
     with_rand
       (with_events w
          ([EvOpen path (Val path); EvDecode path None] ++ reinserted_log items ++
           [EvLog GlobalLog (LogAddedItems (length items)); EvCloseFile path]))
       (reinserted fc (rand w) items).2).
Proof. apply load_readable. Qed.

(** ** The cache under [Set] *)

Lemma rr_total_empty : rr_total (∅ : gmap any entry) = 0.
Proof. unfold rr_total. by rewrite map_fold_empty. Qed.

Lemma rr_total_insert (t : gmap any entry) k e :
  t !! k = None -> rr_total (<[k:=e]> t) = rr_total t + e_size e.
Proof.
  intros Hk. unfold rr_total.
  rewrite map_fold_insert_L; [done| |done].
  intros. lia.
Qed.

Lemma rr_total_sum (t : gmap any entry) : rr_total t = sum_sizes (map_to_list t).
Proof.
  unfold rr_total, sum_sizes. rewrite map_fold_foldr.
  induction (map_to_list t) as [|[k e] l IH]; simpl; [done|]. by rewrite IH.
Qed.

Lemma sum_sizes_nonneg (l : list (any * @entry any)) :
  (forall kv, kv ∈ l -> 0 <= e_size kv.2) -> 0 <= sum_sizes l.
Proof.
  induction l as [|kv l IH]; intros Hl; simpl; [lia|].
  assert (0 <= e_size kv.2) by (apply Hl; left).
  assert (0 <= sum_sizes l) by (apply IH; intros; apply Hl; by right).
  lia.
Qed.

Lemma rr_evict_within fuel key cap (t : gmap any entry) rnd :
  rr_total t <= cap -> rr_evict (S fuel) key cap t rnd = (t, rnd).
Proof. intros Hle. simpl. by rewrite decide_True. Qed.

(** Eviction only drops entries, never the one just admitted, and ends
    within capacity or with nothing else left. *)
Lemma rr_evict_spec fuel key cap (t : gmap any entry) rnd t' rnd' :
  rr_evict fuel key cap t rnd = (t', rnd') ->
  (stdpp.base.size (delete key t) < fuel)%nat ->
  (forall k e, t' !! k = Some e -> t !! k = Some e) /\
  t' !! key = t !! key /\
  (rr_total t' <= cap \/ delete key t' = ∅).
Proof.
  revert t rnd. induction fuel as [|fuel IH]; intros t rnd Hev Hsz; [lia|].
  simpl in Hev.
  destruct (decide (rr_total t <= cap)) as [Hle|Hgt].
  { simplify_eq. auto. }
  destruct ((map_to_list (delete key t)).*1) as [|x xs] eqn:Hothers.
  { simplify_eq. repeat split; auto. right.
    apply map_to_list_empty_iff. by apply fmap_nil_inv in Hothers. }
  set (v := nth (hd 0%nat rnd `mod` length (x :: xs)) (x :: xs) x) in *.
  assert (Hv : v ∈ (map_to_list (delete key t)).*1).
  { rewrite Hothers. apply list_elem_of_In, nth_In.
    apply Nat.mod_upper_bound. simpl. lia. }
  apply list_elem_of_fmap in Hv as ([v' e] & Hv1 & Hv2). simpl in Hv1. subst v'.
  apply elem_of_map_to_list in Hv2.
  apply lookup_delete_Some in Hv2 as [Hne Hve].
  apply IH in Hev as (Hsub & Hkey & Hend).
  - repeat split; auto.
    + intros k e' Hk. apply Hsub in Hk.
      by apply lookup_delete_Some in Hk as [_ Hk].
    + rewrite Hkey. by apply lookup_delete_ne.
  - rewrite delete_delete, map_size_delete_Some.
    + assert (Hpos : stdpp.base.size (delete key t) = S (length xs)).
      { by rewrite <- length_map_to_list, <- (length_fmap fst), Hothers. }
      lia.
    + exists e. by apply lookup_delete_Some.
Qed.

Lemma rr_Set_wf (fc : RRCache) key value rnd :
  cache_wf fc ->
  cache_wf (rr_Set fc key value (contribution key + contribution value) rnd).1.
Proof.
  intros (Hcap & Hsizes & _). unfold rr_Set.
  set (t := <[key:=mkEntry value (contribution key + contribution value)]> (table fc)).
  destruct (rr_evict (stdpp.base.size t) key (capacity fc) t rnd) as [t' rnd'] eqn:Hev.
  simpl. apply rr_evict_spec in Hev as (Hsub & Hkey & Hend).
  - split; [done|]. split.
    + intros k e Hk. apply Hsub in Hk. unfold t in Hk.
      destruct (decide (key = k)) as [->|Hne].
      * rewrite lookup_insert_eq in Hk. by simplify_eq.
      * rewrite lookup_insert_ne in Hk by done. by apply Hsizes.
    + destruct Hend as [Hle|Hempty]; [by left|right].
      unfold t in Hkey. rewrite lookup_insert_eq in Hkey.
      cbn [table].
      rewrite <- (insert_delete_id t' key _ Hkey), Hempty.
      by rewrite insert_empty, map_size_singleton.
  - rewrite map_size_delete_Some.
    + assert (stdpp.base.size t <> 0%nat); [|lia].
      intros Hz. apply map_size_empty_inv in Hz.
      assert (Hl : t !! key = None) by (rewrite Hz; apply lookup_empty).
      unfold t in Hl. by rewrite lookup_insert_eq in Hl.
    + unfold t. rewrite lookup_insert_eq. eauto.
Qed.

(** Every state the program's cache reaches is well-formed. *)
Lemma reachable_wf (fc : RRCache) : all_fit -> reachable fc -> cache_wf fc.
Proof.
  intros Hfit Hreach. induction Hreach as [cap Hcap|fc key value w fc' w' _ IH Hset].
  - split; [done|]. split.
    + intros k e Hk. simpl in Hk. by rewrite lookup_empty in Hk.
    + left. simpl. rewrite rr_total_empty. done.
  - rewrite fFprobeCache_Set_eq, cache_Set_eq in Hset by apply Hfit.
    simplify_eq. by apply rr_Set_wf.
Qed.

(** Re-inserting entries that fit never evicts. *)
Lemma reinserted_fits cap (l : list (any * @entry any)) (t : gmap any entry) rnd :
  NoDup l.*1 ->
  (forall kv, kv ∈ l -> t !! kv.1 = None) ->
  (forall kv, kv ∈ l ->
     e_size kv.2 = contribution kv.1 + contribution (e_value kv.2) /\ 0 <= e_size kv.2) ->
  rr_total t + sum_sizes l <= cap ->
  reinserted (mkCache cap t) rnd (items_of l) = (mkCache cap (list_to_map l ∪ t), rnd).
Proof.
  revert t. induction l as [|[k e] l IH]; intros t Hnd Hfresh Hsz Hsum.
  - simpl. by rewrite (left_id_L ∅ (∪)).
  - simpl in *. apply NoDup_cons in Hnd as [Hk Hnd].
    destruct (Hsz (k, e)) as [Hse Hpos]; [left|]. simpl in *.
    assert (Hrest : 0 <= sum_sizes l).
    { apply sum_sizes_nonneg. intros kv Hkv. apply Hsz. by right. }
    assert (Htk : t !! k = None) by (apply (Hfresh (k, e)); left).
    unfold rr_Set. simpl. rewrite <- Hse.
    replace (mkEntry (e_value e) (e_size e)) with e by (by destruct e).
    rewrite map_size_insert_None by done.
    rewrite rr_evict_within by (rewrite rr_total_insert by done; lia).
    rewrite IH; try done.
    + rewrite <- insert_union_l, insert_union_r; [done|].
      by apply not_elem_of_list_to_map_1.
    + intros kv Hkv. rewrite lookup_insert_ne.
      * apply Hfresh. by right.
      * intros ->. apply Hk. apply list_elem_of_fmap. by exists kv.
    + intros kv Hkv. apply Hsz. by right.
    + rewrite rr_total_insert by done. lia.
Qed.

(** Loading what [Items] returned into a fresh cache of the same
    capacity rebuilds the cache. *)
Lemma reinserted_roundtrip (fc : RRCache) rnd :
  all_fit -> cache_wf fc ->
  reinserted (rr_New (capacity fc)) rnd (to_cache_item <$> rr_Items fc) = (fc, rnd).
Proof.
  intros Hfit (Hcap & Hsizes & Hbound).
  destruct fc as [cap t]. simpl in *. unfold rr_Items, rr_New. simpl.
  rewrite <- list_fmap_compose.
  change (to_cache_item ∘ _) with (fun kv : any * entry => mkCacheItem kv.1 (e_value kv.2)).
  fold (items_of (map_to_list t)).
  assert (Hent : forall kv, kv ∈ map_to_list t ->
            e_size kv.2 = contribution kv.1 + contribution (e_value kv.2) /\
            0 <= e_size kv.2).
  { intros [k e] Hkv. apply elem_of_map_to_list in Hkv. simpl.
    rewrite (Hsizes k e Hkv). split; [done|].
    pose proof (contribution_range k (Hfit k)).
    pose proof (contribution_range (e_value e) (Hfit (e_value e))). lia. }
  destruct Hbound as [Hle|Hone].
  - rewrite reinserted_fits.
    + by rewrite list_to_map_to_list, (right_id_L ∅ (∪)).
    + apply NoDup_fst_map_to_list.
    + intros. apply lookup_empty.
    + done.
    + rewrite rr_total_empty, <- rr_total_sum. lia.
  - rewrite <- length_map_to_list in Hone.
    pose proof (list_to_map_to_list t) as Ht.
    destruct (map_to_list t) as [|[k e] [|kv l]] eqn:Hl; simpl in Hone; try lia.
    + simpl in Ht. by rewrite <- Ht.
    + simpl in Ht. destruct (Hent (k, e)) as [Hse _]; [left|]. simpl in Hse.
      simpl. unfold rr_Set. simpl. rewrite <- Hse.
      replace (mkEntry (e_value e) (e_size e)) with e by (by destruct e).
      rewrite insert_empty, map_size_singleton. simpl.
      rewrite delete_singleton_eq, map_to_list_empty. simpl.
      rewrite <- Ht, insert_empty. by destruct (decide _).
Qed.

(** ** [save] *)

Ltac fs_simpl :=
  repeat first
    [ rewrite lookup_delete_eq | rewrite lookup_insert_eq
    | rewrite lookup_delete_ne by congruence
    | rewrite lookup_insert_ne by congruence ].

Ltac fs_absurd :=
  match goal with
  | H : _ !! _ = None |- _ => exfalso; revert H; fs_simpl; intros; congruence
  | H : _ !! _ = Some _ |- _ => exfalso; revert H; fs_simpl; intros; congruence
  | H : bool_decide _ = true |- _ => apply bool_decide_eq_true_1 in H; discriminate
  end.

Ltac save_cases :=
  unfold save, os_CreateTemp, json_Encode, os_Remove, os_Rename, err_is in *;
  run_M; repeat (case_match; simplify_eq/=).

(** When the encoder fails, [save] removes the temporary file, returns
    the encoder's error and leaves the destination alone. *)
Lemma save_encode_failure (fc : RRCache) path (w : world) tmp w1 e w2 :
  temp_name_fresh ->
  os_CreateTemp (filepath_Dir path) (filepath_Base path) w = (Ok (Val tmp), w1) ->
  json_Encode tmp (rr_Items fc) w1 = (Ok (Some e), w2) ->
  exists w' r,
    save fc path w = (Ok (Some e), w') /\
    last (trace w') = Some (EvRemove tmp r) /\
    (r = None \/ fault w SysRemove tmp = None -> fs w' !! tmp = None) /\
    fs w' !! path = fs w !! path.
Proof.
  intros Hfresh Hct Henc.
  pose proof (Hfresh path (hd O (rand w))) as Hne.
  save_cases.
  all: eexists _, _; split; [reflexivity|]; split; [apply last_snoc|]; split.
  all: try (intros [?|?]; try congruence).
  all: simpl; fs_simpl; try reflexivity.
  all: fs_absurd.
Qed.

(** The destination changes only after the whole text has been written
    to the temporary file. *)
Lemma save_changes_destination (fc : RRCache) path (w : world) r w' :
  temp_name_fresh ->
  save fc path w = (r, w') ->
  fs w' !! path <> fs w !! path ->
  exists tmp w1 w2 b,
    os_CreateTemp (filepath_Dir path) (filepath_Base path) w = (Ok (Val tmp), w1) /\
    json_Encode tmp (rr_Items fc) w1 = (Ok None, w2) /\
    json_MarshalItems (rr_Items fc) = Val b /\
    fs w2 !! tmp = Some b.
Proof.
  intros Hfresh Hsave Hchg.
  pose proof (Hfresh path (hd O (rand w))) as Hne.
  destruct (os_CreateTemp (filepath_Dir path) (filepath_Base path) w)
    as [[[tmp|e]|c] w1] eqn:Hct.
  2,3: exfalso; apply Hchg; save_cases; fs_simpl; reflexivity.
  destruct (json_Encode tmp (rr_Items fc) w1) as [[[e|]|c] w2] eqn:Henc.
  1,3: exfalso; apply Hchg; save_cases; fs_simpl; reflexivity.
  destruct (json_MarshalItems (rr_Items fc)) as [b|e] eqn:Hm.
  2: { exfalso. unfold json_Encode in Henc. rewrite Hm in Henc. run_M. congruence. }
  exists tmp, w1, w2, b.
  split; [done|]. split; [done|]. split; [done|].
  unfold json_Encode in Henc. rewrite Hm in Henc. run_M.
  case_match; simplify_eq/=. by fs_simpl.
Qed.

(** C3: when writing or encoding to the temporary file fails, [save]
    deletes the temporary file, returns that error and leaves the file at
    [path] untouched; the file at [path] changes only after the
    temporary file has received the whole text. *)
Theorem save_write_failure_leaves_destination (fc : RRCache) path (w : world) :
  temp_name_fresh ->
  (forall tmp w1 e w2,
     os_CreateTemp (filepath_Dir path) (filepath_Base path) w = (Ok (Val tmp), w1) ->
     json_Encode tmp (rr_Items fc) w1 = (Ok (Some e), w2) ->
     exists w' r,
       save fc path w = (Ok (Some e), w') /\
       last (trace w') = Some (EvRemove tmp r) /\
       (r = None \/ fault w SysRemove tmp = None -> fs w' !! tmp = None) /\
       fs w' !! path = fs w !! path)
  /\ (forall r w',
       save fc path w = (r, w') ->
       fs w' !! path <> fs w !! path ->
       exists tmp w1 w2 b,
         os_CreateTemp (filepath_Dir path) (filepath_Base path) w = (Ok (Val tmp), w1) /\
         json_Encode tmp (rr_Items fc) w1 = (Ok None, w2) /\
         json_MarshalItems (rr_Items fc) = Val b /\
         fs w2 !! tmp = Some b).
Proof.
  intros Hfresh. split.
  - intros tmp w1 e w2. by apply save_encode_failure.
  - intros r w'. by apply save_changes_destination.
Qed.

(** C9: whenever the temporary file was created and [save] returns an
    error, the last thing [save] does is to remove the temporary file;
    the file is gone when that removal succeeds. *)
Theorem save_error_removes_temp (fc : RRCache) path (w : world) tmp w1 e w' :
  os_CreateTemp (filepath_Dir path) (filepath_Base path) w = (Ok (Val tmp), w1) ->
  save fc path w = (Ok (Some e), w') ->
  exists r,
    last (trace w') = Some (EvRemove tmp r) /\
    (r = None \/ fault w SysRemove tmp = None -> fs w' !! tmp = None).
Proof.
  intros Hct Hsave.
  save_cases.
  all: eexists; split; [apply last_snoc|].
  all: intros [?|?]; try congruence.
  all: by fs_simpl.
Qed.

(** C4 (what the code does): on Windows, with no file at [path] yet, the
    removal before the rename fails with a [*PathError]; that value is
    not [os.ErrNotExist], so the rename is skipped, the temporary file is
    removed and [save] returns the removal error. *)
Theorem save_windows_missing_destination (fc : RRCache) path (w : world) tmp w1 w2 :
  temp_name_fresh ->
  GOOS w = "windows"%string ->
  fs w !! path = None ->
  fault w SysRemove path = None ->
  os_CreateTemp (filepath_Dir path) (filepath_Base path) w = (Ok (Val tmp), w1) ->
  json_Encode tmp (rr_Items fc) w1 = (Ok None, w2) ->
  exists w' r,
    save fc path w = (Ok (Some (PathError "remove" path ENOENT)), w') /\
    trace w' = trace w2 ++
      [EvCloseFile tmp; EvRemove path (Some (PathError "remove" path ENOENT));
       EvRemove tmp r] /\
    fs w' !! path = None.
Proof.
  intros Hfresh Hgoos Hmiss Hflt Hct Henc.
  pose proof (Hfresh path (hd O (rand w))) as Hne.
  save_cases.
  all: try fs_absurd.
  all: try (rewrite Hgoos in *; discriminate).
  all: eexists _, _; split; [reflexivity|]; simpl; split;
    [by rewrite <- !app_assoc|].
  all: by fs_simpl.
Qed.

(** A successful [save] leaves the whole text of the snapshot at [path]. *)
Lemma save_success (fc : RRCache) path (w w' : world) :
  save fc path w = (Ok None, w') ->
  exists b,
    json_MarshalItems (rr_Items fc) = Val b /\
    fs w' !! path = Some b /\
    fault w' = fault w.
Proof.
  intros Hsave.
  save_cases.
  all: eexists; split; [reflexivity|]; split; [|reflexivity].
  all: rewrite lookup_insert_eq; f_equal.
  all: match goal with
       | H : _ !! ?t = Some _ |- _ =>
           destruct (decide (t = path)) as [Heq|Hneq];
           [rewrite Heq in H|]; revert H; fs_simpl; congruence
       end.
Qed.

(** C5: after a successful [save], a [load] of the same path into a
    fresh cache of the same capacity returns no error and rebuilds the
    cache: the same keys with the same values as in the [Items] snapshot
    that was saved. *)
Theorem save_then_load_reproduces_items (fc : RRCache) path (w w1 : world) :
  codec_roundtrip -> all_fit -> reachable fc ->
  save fc path w = (Ok None, w1) ->
  fault w SysOpen path = None ->
  fault w SysRead path = None ->
  exists fc' w2,
    load (rr_New (capacity fc)) path w1 = (Ok (fc', None), w2) /\
    fc' = fc /\
    rr_Items fc' = rr_Items fc /\
    (forall key, fFprobeCache_Get fc' key = fFprobeCache_Get fc key).
Proof.
  intros Hrt Hfit Hreach Hsave Hopen Hread.
  apply save_success in Hsave as (b & Hm & Hfile & Hflt).
  pose proof (reachable_wf fc Hfit Hreach) as Hwf.
  pose proof (Hrt _ _ Hm) as Hdec.
  rewrite (load_readable _ path b (to_cache_item <$> rr_Items fc)); try done.
  - rewrite reinserted_roundtrip by done. simpl.
    eexists _, _. split; [reflexivity|]. done.
  - by rewrite Hflt.
  - by rewrite Hflt.
  - apply Forall_forall. intros item _. split; apply Hfit.
Qed.

(** ** [Stop] against the goroutine of [Start] *)

(** [save] always returns; it starts with [os.CreateTemp], leaves the
    faults as they are and touches neither the quit channel nor the wait
    group. *)
Lemma save_effect (fc : RRCache) path (w0 : world) :
  exists err w',
    save fc path w0 = (Ok err, w') /\
    exists r evs,
      trace w' = trace w0 ++ EvCreateTemp (filepath_Dir path) (filepath_Base path) r :: evs /\
      fault w' = fault w0 /\
      existsb is_CloseQuit evs = false /\
      existsb is_WgDone evs = false.
Proof.
  save_cases.
  all: eexists _, _; split; [reflexivity|]; simpl; rewrite <- ?app_assoc.
  all: eexists _, _; split; [reflexivity|]; split; [reflexivity|].
  all: split; reflexivity.
Qed.

Lemma Stop_inv_init (p : program) (w : world) :
  wg p = 0 -> trace w = [] -> Stop_inv w 0 (Start p w).
Proof.
  intros Hwg Htr. unfold Stop_inv, Start. simpl. rewrite Hwg, Htr. simpl.
  repeat split; try done; try lia.
Qed.

Ltac inv_trace :=
  repeat match goal with
         | Hx : existsb _ (trace _) = _ |- _ => rewrite Hx
         end;
  simpl; rewrite ?orb_false_r, ?orb_true_r.

Lemma Stop_inv_step (w : world) n s s' :
  Stop_inv w n s -> step config s s' -> Stop_inv w (S n) s'.
Proof.
  intros (Hf & Hwg & Hq & Hbq & Hsb & Hn & Hct & Hcq & Hwd & Hret & Hex & Hok) Hstep.
  assert (Hrecv : quit_closed (sys_prog s) = true -> (4 <= stop_rank (sys_stop s))%nat).
  { intros Hqc. rewrite Hqc in Hq. symmetry in Hq. by apply Nat.leb_le in Hq. }
  destruct s as [ws ps bpc spc ex]. simpl in *.
  destruct Hstep as [Hstep|Hstep].
  - clear Hrecv. unfold Stop_step in Hstep. simpl in Hstep.
    destruct ex; [done|].
    destruct spc; simpl in *.
    + (* Println Stopping *)
      unfold advance_stop in Hstep. run_M. simplify_eq.
      unfold Stop_inv. simpl. rewrite !existsb_app. inv_trace. simpl.
      repeat split; try done; try lia.
    + (* Close *)
      unfold advance_stop, Server_Close in Hstep. run_M.
      destruct (fault ws SysServerClose "") as [e|] eqn:Hc; simpl in Hstep;
        simplify_eq; unfold Stop_inv; simpl;
        rewrite <- ?app_assoc, !existsb_app; inv_trace; simpl.
      * repeat split; try done; try lia.
        exists e. rewrite <- Hf, Hc. split; [done|]. split.
        -- apply in_or_app. right. simpl. tauto.
        -- by rewrite last_app.
      * repeat split; try done; try lia.
        intros _ _. by rewrite <- Hf.
    + (* save *)
      unfold advance_stop in Hstep.
      destruct (save_effect (cache ps) (FFprobeCachePath config) ws)
        as (err & w' & Hsave & r & evs & Htr & Hf' & Hq' & Hd').
      cbn [sys_world sys_prog sys_bg sys_stop sys_exited] in Hstep.
      unfold bind at 1 in Hstep. rewrite Hsave in Hstep.
      assert (Hok' : fault w SysServerClose "" = None) by (apply Hok; [done|lia]).
      destruct err as [e|]; run_M; simplify_eq;
        unfold Stop_inv; simpl; rewrite ?Htr;
        rewrite ?existsb_app; simpl; rewrite ?existsb_app; inv_trace;
        simpl; rewrite ?Hq', ?Hd', ?orb_true_r, ?orb_false_r; simpl;
        (repeat split; try done; try lia; try congruence).
    + (* close(quit) *)
      unfold advance_stop in Hstep. run_M. simplify_eq.
      assert (Hok' : fault w SysServerClose "" = None) by (apply Hok; [done|lia]).
      unfold Stop_inv. simpl. rewrite !existsb_app. inv_trace. simpl.
      rewrite ?orb_true_r.
      repeat split; try done; try lia.
    + (* wg.Wait *)
      destruct (wg ps =? 0) eqn:Hz; [|done].
      apply Z.eqb_eq in Hz.
      assert (Hok' : fault w SysServerClose "" = None) by (apply Hok; [done|lia]).
      unfold advance_stop in Hstep. run_M. simplify_eq.
      assert (Hb : bg_rank bpc = 5%nat).
      { rewrite Hz in Hwg. destruct (bg_rank bpc =? 5)%nat eqn:Hb; [|done].
        by apply Nat.eqb_eq in Hb. }
      unfold Stop_inv. simpl. rewrite !existsb_app. inv_trace. simpl.
      rewrite ?orb_false_r, Hb. simpl.
      repeat split; try done; try lia.
    + (* Println Stopped *)
      assert (Hok' : fault w SysServerClose "" = None) by (apply Hok; [done|lia]).
      unfold advance_stop in Hstep. run_M. simplify_eq.
      unfold Stop_inv. simpl. rewrite !existsb_app. inv_trace. simpl.
      rewrite ?orb_false_r.
      repeat split; try done; try lia.
      intros r Hr. by simplify_eq.
    + done.
  - unfold Start_goroutine_step in Hstep. simpl in Hstep.
    destruct ex; [done|].
    destruct bpc; simpl in *;
      try (destruct (quit_closed ps) eqn:Hqc; [specialize (Hrecv eq_refl)|done]);
      unfold advance_bg in Hstep; run_M; simplify_eq;
      unfold Stop_inv; simpl; rewrite ?existsb_app; inv_trace; simpl;
      rewrite ?orb_false_r, ?orb_true_r.
    all: repeat split; try done; try lia.
    all: try (intros ?; lia).
    all: rewrite Hqc; destruct spc; simpl in *; first [done | lia].
Qed.

Lemma Stop_inv_nsteps (w : world) n0 n s0 s :
  Stop_inv w n0 s0 -> nsteps (step config) n s0 s -> Stop_inv w (n0 + n) s.
Proof.
  intros Hinv Hsteps. revert n0 Hinv.
  induction Hsteps as [|n x y z Hxy _ IH]; intros n0 Hinv.
  - by rewrite Nat.add_0_r.
  - replace (n0 + S n)%nat with (S n0 + n)%nat by lia.
    apply IH. by eapply Stop_inv_step.
Qed.

Lemma run_sched_nsteps sched s :
  sched_ok config sched s = true ->
  nsteps (step config) (length sched) s (run_sched config sched s).
Proof.
  revert s. induction sched as [|b sched IH]; intros s Hok; simpl.
  - constructor.
  - simpl in Hok. destruct b.
    + destruct (Stop_step config s) as [s'|] eqn:Hs; [|done].
      eapply nsteps_l; [by apply step_stop|]. by apply IH.
    + destruct (Start_goroutine_step s) as [s'|] eqn:Hs; [|done].
      eapply nsteps_l; [by apply step_bg|]. by apply IH.
Qed.

(** A state that is not final has a step to take. *)
Lemma Stop_progress (w : world) n s :
  Stop_inv w n s ->
  (forall s', ~ step config s s') ->
  sys_exited s = true \/ exists r, sys_stop s = StReturned r.
Proof.
  intros (Hf & Hwg & Hq & Hbq & Hsb & Hn & Hct & Hcq & Hwd & Hret & Hex & Hok) Hnf.
  destruct s as [ws ps bpc spc ex]. simpl in *.
  destruct ex; [by left|]. right.
  destruct spc; simpl in *; eauto; exfalso.
  1-4,6: eapply Hnf; apply step_stop; unfold Stop_step; simpl; reflexivity.
  destruct (wg ps =? 0) eqn:Hz.
  { eapply Hnf. apply step_stop. unfold Stop_step. simpl. rewrite Hz. reflexivity. }
  destruct bpc; simpl in *; try (apply Z.eqb_neq in Hz; lia).
  all: eapply Hnf; apply step_bg; unfold Start_goroutine_step; simpl;
    rewrite ?Hq; reflexivity.
Qed.

(** The save step of [Stop]: whatever [save] returns, [Stop] moves on to
    closing the quit channel; an error of [save] is printed on the
    program's logger. *)
Lemma Stop_step_save (s0 : sys) :
  sys_exited s0 = false ->
  sys_stop s0 = StSave ->
  exists err w1,
    save (cache (sys_prog s0)) (FFprobeCachePath config) (sys_world s0) = (Ok err, w1) /\
    Stop_step config s0 =
      Some (mkSys
              (match err with
               | Some e => with_events w1 [EvLog ProgramLog (LogErr e)]
               | None => w1
               end)
              (sys_prog s0) (sys_bg s0) StCloseQuit false).
Proof.
  intros Hex Hpc.
  destruct (save_effect (cache (sys_prog s0)) (FFprobeCachePath config) (sys_world s0))
    as (err & w1 & Hsave & _).
  exists err, w1. split; [done|].
  unfold Stop_step. rewrite Hex, Hpc. unfold advance_stop, bind.
  rewrite Hsave. by destruct err.
Qed.

(** When [Close] succeeds, [Stop] cannot return before the goroutine of
    [Start] has exited, and it always ends up returning. *)
Lemma Stop_close_success (p : program) (w : world) n s :
  wg p = 0 -> trace w = [] ->
  fault w SysServerClose "" = None ->
  nsteps (step config) n (Start p w) s ->
  sys_exited s = false
  /\ (forall r, sys_stop s = StReturned r ->
       r = None /\ sys_bg s = BgExited /\ quit_closed (sys_prog s) = true /\
       save_attempted (trace (sys_world s)) /\
       existsb is_CloseQuit (trace (sys_world s)) = true /\
       existsb is_WgDone (trace (sys_world s)) = true)
  /\ ((forall s', ~ step config s s') -> sys_stop s = StReturned None).
Proof.
  intros Hwg Htr Hc Hsteps.
  pose proof (Stop_inv_nsteps w 0 n _ s (Stop_inv_init p w Hwg Htr) Hsteps) as Hinv.
  pose proof Hinv as
    (Hf & Hwg' & Hq & Hbq & Hsb & Hn & Hct & Hcq & Hwd & Hret & Hex & Hok).
  assert (Hne : sys_exited s = false).
  { destruct (sys_exited s); [|done].
    destruct (Hex eq_refl) as (_ & e & He & _). congruence. }
  split; [done|]. split.
  - intros r Hr. rewrite Hr in *. simpl in *.
    assert (Hb : bg_rank (sys_bg s) = 5%nat) by (apply Hsb; lia).
    rewrite Hb in *. simpl in *.
    repeat split; try done.
    + by apply Hret.
    + by destruct (sys_bg s).
  - intros Hnf.
    destruct (Stop_progress w _ s Hinv Hnf) as [Hx|[r Hr]]; [congruence|].
    rewrite Hr. f_equal. by apply Hret.
Qed.

(** When [Close] fails, [log.Fatal] ends the process: nothing is saved,
    the quit channel is never closed and [Stop] never returns. *)
Lemma Stop_close_failure (p : program) (w : world) e n s :
  wg p = 0 -> trace w = [] ->
  fault w SysServerClose "" = Some e ->
  nsteps (step config) n (Start p w) s ->
  ~ save_attempted (trace (sys_world s))
  /\ existsb is_CloseQuit (trace (sys_world s)) = false
  /\ (forall r, sys_stop s <> StReturned r)
  /\ ((forall s', ~ step config s s') ->
      sys_exited s = true /\
      In (EvLog GlobalLog (LogErr (ServerError e))) (trace (sys_world s)) /\
      last (trace (sys_world s)) = Some (EvExit 1)).
Proof.
  intros Hwg Htr Hc Hsteps.
  pose proof (Stop_inv_nsteps w 0 n _ s (Stop_inv_init p w Hwg Htr) Hsteps) as Hinv.
  pose proof Hinv as
    (Hf & Hwg' & Hq & Hbq & Hsb & Hn & Hct & Hcq & Hwd & Hret & Hex & Hok).
  assert (Hsr : (stop_rank (sys_stop s) <= 1)%nat).
  { destruct (sys_exited s) eqn:Hx.
    - destruct (Hex eq_refl) as (-> & _). lia.
    - destruct (le_lt_dec (stop_rank (sys_stop s)) 1) as [|Hgt]; [done|].
      specialize (Hok eq_refl Hgt). congruence. }
  unfold save_attempted. rewrite Hct, Hcq.
  destruct (stop_rank (sys_stop s)) as [|[|k]] eqn:Hr; try lia; simpl.
  all: repeat split; try done.
  all: try (intros r Hret'; rewrite Hret' in Hr; discriminate).
  all: match goal with
       | Hnf : forall s', ~ step _ _ s' |- _ =>
           destruct (Stop_progress w _ s Hinv Hnf) as [Hx|[r Hr']];
           [|rewrite Hr' in Hr; discriminate]
       end.
  all: destruct (Hex Hx) as (_ & e' & He' & Hin & Hlast).
  all: assert (e' = e) by congruence; subst e'; done.
Qed.

(** C2 (as the code has it): as long as [Close] succeeds, [Stop]
    attempts the save, prints a save error on the logger without
    returning it, closes the quit channel, waits for the goroutine of
    [Start] to finish and returns [nil]; every execution gets there in at
    most twelve steps.  When [Close] returns an error, [log.Fatal] prints
    it and ends the process: no save is attempted, the quit channel stays
    open and [Stop] does not return. *)
Theorem Stop_saves_and_waits_unless_close_fails (p : program) (w : world) n s :
  wg p = 0 -> trace w = [] ->
  nsteps (step config) n (Start p w) s ->
  (n <= 12)%nat
  /\ (fault w SysServerClose "" = None ->
      sys_exited s = false
      /\ (forall r, sys_stop s = StReturned r ->
           r = None /\ sys_bg s = BgExited /\ quit_closed (sys_prog s) = true /\
           save_attempted (trace (sys_world s)) /\
           existsb is_CloseQuit (trace (sys_world s)) = true /\
           existsb is_WgDone (trace (sys_world s)) = true)
      /\ ((forall s', ~ step config s s') -> sys_stop s = StReturned None))
  /\ (forall e, fault w SysServerClose "" = Some e ->
      ~ save_attempted (trace (sys_world s))
      /\ existsb is_CloseQuit (trace (sys_world s)) = false
      /\ (forall r, sys_stop s <> StReturned r)
      /\ ((forall s', ~ step config s s') ->
          sys_exited s = true /\
          In (EvLog GlobalLog (LogErr (ServerError e))) (trace (sys_world s)) /\
          last (trace (sys_world s)) = Some (EvExit 1)))
  /\ (forall s0, sys_exited s0 = false -> sys_stop s0 = StSave ->
      exists err w1,
        save (cache (sys_prog s0)) (FFprobeCachePath config) (sys_world s0) = (Ok err, w1) /\
        Stop_step config s0 =
          Some (mkSys
                  (match err with
                   | Some e => with_events w1 [EvLog ProgramLog (LogErr e)]
                   | None => w1
                   end)
                  (sys_prog s0) (sys_bg s0) StCloseQuit false)).
Proof.
  intros Hwg Htr Hsteps.
  split; [|split; [|split]].
  - pose proof (Stop_inv_nsteps w 0 n _ s (Stop_inv_init p w Hwg Htr) Hsteps)
      as (_ & _ & _ & _ & _ & Hn & _).
    simpl in Hn. rewrite Hn.
    destruct (sys_stop s), (sys_bg s), (sys_exited s); simpl; lia.
  - intros Hc. by eapply Stop_close_success.
  - intros e Hc. by eapply Stop_close_failure.
  - apply Stop_step_save.
Qed.

(** ** The interface monitor *)

Lemma up_interfaces_up ifs tmp :
  Forall is_up tmp -> Forall is_up (up_interfaces ifs tmp).
Proof.
  revert tmp. induction ifs as [|if_ ifs IH]; intros tmp Htmp; simpl; [done|].
  destruct (Z.land (if_Flags if_) FlagUp =? 0) eqn:Hflag; simpl.
  { by apply IH. }
  destruct (if_MTU if_ <=? 0) eqn:Hmtu; simpl; [by apply IH|].
  apply IH, Forall_app. split; [done|].
  apply Forall_singleton. split; lia.
Qed.

Ltac tick_cases :=
  unfold monitor_tick, getInterfaces, net_Interfaces, net_InterfaceByName,
    Server_Close, Server_Init, newDmsServer in *;
  run_M; repeat (case_match; simplify_eq/=).

(** C7: on a tick of the monitor, the serving instance is replaced
    exactly when more up interfaces are available than the running
    instance is bound to; otherwise the tick does nothing.  With more
    interfaces the old instance is closed first and, every step
    succeeding, the new instance bound to the new interfaces is
    initialised and its run is launched. *)
Theorem monitor_tick_replaces_iff_more (p : program) (w : world) ifs w1 :
  (emit EvSleep ;;; getInterfaces (IfName config)) w = (Ok ifs, w1) ->
  let bound := Interfaces (dmsServer p) in
  Forall is_up ifs
  /\ (exists res w' evs,
        monitor_tick config p w = (res, w') /\
        trace w' = trace w1 ++ evs /\
        ((exists r, In (EvServerClose bound r) evs) <->
         (length bound < length ifs)%nat))
  /\ ((length ifs <= length bound)%nat -> monitor_tick config p w = (Ok p, w1))
  /\ ((length bound < length ifs)%nat ->
      fault w SysServerClose "" = None ->
      fault w SysListen "" = None ->
      fault w SysIcons "" = None ->
      fault w SysServerInit "" = None ->
      monitor_tick config p w =
        (Ok (mkProgram (mkServer ifs) (cache p) (wg p) (quit_closed p)),
         with_events w1
           [EvServerClose bound None; EvListen None; EvIcons None;
            EvServerInit ifs None; EvGoServerRun ifs])).
Proof.
  intros Hget bound. subst bound.
  split; [|split; [|split]].
  - unfold getInterfaces, net_Interfaces, net_InterfaceByName in Hget.
    run_M. repeat (case_match; simplify_eq/=).
    all: try (by apply up_interfaces_up).
    all: try (by constructor).
    all: match goal with
         | Hf : orb _ _ = false |- _ =>
             apply orb_false_iff in Hf as [? ?];
             apply Forall_singleton; split; lia
         end.
  - tick_cases.
    all: eexists _, _, _; split; [reflexivity|]; simpl.
    all: rewrite <- ?app_assoc; split; [reflexivity|]; simpl.
    all: rewrite ?app_nil_r.
    all: match goal with
         | Hlt : Nat.ltb _ _ = true |- _ => apply Nat.ltb_lt in Hlt
         | Hlt : Nat.ltb _ _ = false |- _ => apply Nat.ltb_ge in Hlt
         end.
    all: split;
      [ intros [r Hin]; first [assumption | exfalso; simpl in Hin; tauto]
      | intros ?; first [lia | eexists; left; reflexivity] ].
  - intros Hle. apply Nat.ltb_ge in Hle.
    tick_cases; try congruence.
  - intros Hlt Hc Hl Hi Hin. apply Nat.ltb_lt in Hlt.
    tick_cases; try congruence.
    all: try match goal with
             | Hf : _ <$> _ = Some _ |- _ =>
                 rewrite ?Hc, ?Hin in Hf; discriminate
             end.
    all: by rewrite <- !app_assoc.
Qed.

(** ** [makeIpNets] *)

Lemma makeIpNets_loop_eq els nets (w : world) :
  makeIpNets_loop els nets w =
    (Ok (nets ++ (Some <$> omap element_net els)),
     with_events w (flat_map element_log els)).
Proof.
  revert nets w. induction els as [|el els IH]; intros nets w; simpl.
  - unfold ret. by rewrite app_nil_r, with_events_nil.
  - unfold element_net, element_log.
    destruct (net_ParseIP el) as [ip|].
    + destruct (net_ParseCIDR (el +:+ "/32")) as [r|e]; simpl.
      * rewrite IH, <- app_assoc. reflexivity.
      * run_M. rewrite IH. unfold with_events. simpl.
        by rewrite <- app_assoc.
    + destruct (net_ParseCIDR el) as [r|e]; simpl.
      * rewrite IH, <- app_assoc. reflexivity.
      * run_M. rewrite IH. unfold with_events. simpl.
        by rewrite <- app_assoc.
Qed.

(** C10: on the empty string [makeIpNets] returns the two universal
    networks; on a non-empty list it keeps, in order, the network of
    every element that parses (an address as its /32 network, a CIDR
    expression as it is), logs one line for every element that does not,
    and always returns. *)
Theorem makeIpNets_universal_or_parsed (s : string) (w : world) :
  (forall ip4 ip6,
     net_ParseCIDR "0.0.0.0/0" = Val (ip4, net4_all) ->
     net_ParseCIDR "::/0" = Val (ip6, net6_all) ->
     makeIpNets "" w = (Ok [Some net4_all; Some net6_all], w))
  /\ (s <> ""%string ->
      makeIpNets s w =
        (Ok (Some <$> omap element_net (strings_Split s ",")),
         with_events w (flat_map element_log (strings_Split s ","))))
  /\ (forall el ip r,
       net_ParseIP el = Some ip -> net_ParseCIDR (el +:+ "/32") = Val r ->
       element_net el = Some r.2 /\ element_log el = ([] : list event))
  /\ (forall el r,
       net_ParseIP el = None -> net_ParseCIDR el = Val r ->
       element_net el = Some r.2 /\ element_log el = ([] : list event))
  /\ (forall el,
       element_net el = None ->
       exists m, element_log el = ([EvLog GlobalLog m] : list event)).
Proof.
  split; [|split; [|split; [|split]]].
  - intros ip4 ip6 H4 H6. unfold makeIpNets. simpl.
    by rewrite H4, H6.
  - intros Hs. unfold makeIpNets.
    destruct s as [|c s']; [done|].
    replace (String.length (String c s') <? 1)%nat with false by reflexivity.
    cbv beta iota zeta. by rewrite makeIpNets_loop_eq.
  - intros el ip r Hip Hr. unfold element_net, element_log. by rewrite Hip, Hr.
  - intros el r Hip Hr. unfold element_net, element_log. by rewrite Hip, Hr.
  - intros el. unfold element_net, element_log.
    destruct (net_ParseIP el); [destruct (net_ParseCIDR (el +:+ "/32"))
                               | destruct (net_ParseCIDR el)];
      simpl; intros; try discriminate; eauto.
Qed.

(** * Further properties of the code *)

(** ** [getInterfaces] *)

Lemma up_interfaces_filter ifs tmp :
  up_interfaces ifs tmp = tmp ++ List.filter passes_filter ifs.
Proof.
  revert tmp. induction ifs as [|if_ ifs IH]; intros tmp; simpl.
  - by rewrite app_nil_r.
  - unfold passes_filter at 1.
    destruct ((Z.land (if_Flags if_) FlagUp =? 0) || (if_MTU if_ <=? 0)); simpl.
    + apply IH.
    + rewrite IH, <- app_assoc. reflexivity.
Qed.

Lemma passes_filter_up if_ : passes_filter if_ = true <-> is_up if_.
Proof.
  unfold passes_filter, is_up.
  rewrite negb_true_iff, orb_false_iff, Z.eqb_neq, Z.leb_gt. tauto.
Qed.

(** X1: with no interface name configured, [getInterfaces] returns the
    system's interfaces that are up and have a positive MTU, all of them
    and in the system's order; when the lookup fails it logs the error
    and ends the process with status 1. *)
Theorem getInterfaces_all_keeps_up_interfaces (w : world) :
  (fault w SysInterfaces "" = None ->
   getInterfaces "" w =
     (Ok (List.filter passes_filter (netifs w)), with_events w [EvInterfaces None])
   /\ (forall if_, In if_ (List.filter passes_filter (netifs w)) <->
                   In if_ (netifs w) /\ is_up if_))
  /\ (forall e, fault w SysInterfaces "" = Some e ->
      getInterfaces "" w =
        (Exited 1,
         with_events w
           [EvInterfaces (Some (NetError "route ip+net"));
            EvLog GlobalLog (LogErr (NetError "route ip+net")); EvExit 1])).
Proof.
  split.
  - intros Hf. split.
    + unfold getInterfaces, net_Interfaces. run_M. rewrite Hf. simpl.
      by rewrite up_interfaces_filter.
    + intros if_. rewrite filter_In, passes_filter_up. tauto.
  - intros e Hf. unfold getInterfaces, net_Interfaces. run_M. rewrite Hf. simpl.
    by rewrite <- !app_assoc.
Qed.

(** X2: with an interface name configured, [getInterfaces] looks that
    one interface up.  When it exists the result holds it alone if it is
    up with a positive MTU, and is empty, without any error, if it is
    not; when no interface has that name the process ends with
    status 1. *)
Theorem getInterfaces_named_interface ifName (w : world) :
  ifName <> ""%string ->
  fault w SysInterfaces ifName = None ->
  match List.find (fun i => String.eqb (if_Name i) ifName) (netifs w) with
  | Some if_ =>
      if_Name if_ = ifName /\ In if_ (netifs w) /\
      getInterfaces ifName w =
        (Ok (if passes_filter if_ then [if_] else []), with_events w [EvInterfaces None])
  | None =>
      getInterfaces ifName w =
        (Exited 1,
         with_events w
           [EvInterfaces (Some (NetError "no such network interface"));
            EvLog GlobalLog (LogErr (NetError "no such network interface")); EvExit 1])
  end.
Proof.
  intros Hname Hf.
  apply String.eqb_neq in Hname.
  destruct (List.find _ (netifs w)) as [if_|] eqn:Hfind.
  - pose proof (find_some _ _ Hfind) as [Hin Heq].
    apply String.eqb_eq in Heq.
    split; [done|]. split; [done|].
    unfold getInterfaces, net_InterfaceByName. rewrite Hname. run_M.
    rewrite Hf, Hfind. simpl. unfold passes_filter.
    by destruct ((Z.land (if_Flags if_) FlagUp =? 0) || (if_MTU if_ <=? 0)).
  - unfold getInterfaces, net_InterfaceByName. rewrite Hname. run_M.
    rewrite Hf, Hfind. simpl. by rewrite <- !app_assoc.
Qed.

(** ** [Set] and [load] never touch the environment *)

Lemma Set_size_effect vs size (w : world) :
  exists z evs, Set_size vs size w = (Ok z, with_events w evs).
Proof.
  revert size w. induction vs as [|v vs IH]; intros size w; simpl.
  - exists size, []. unfold ret. by rewrite with_events_nil.
  - destruct (json_Marshal v) as [b|e].
    + apply IH.
    + unfold bind, log_Print, emit.
      destruct (IH size (mkWorld (GOOS w) (fs w) (fault w) (rand w) (netifs w)
                           (trace w ++ [EvLog GlobalLog (LogCouldNotMarshal v e)])))
        as (z & evs & ->).
      exists z, (EvLog GlobalLog (LogCouldNotMarshal v e) :: evs).
      unfold with_events. simpl. by rewrite <- app_assoc.
Qed.

Lemma same_env_refl (w : world) : same_env w w.
Proof. repeat split. exists []. by rewrite app_nil_r. Qed.

Lemma same_env_trans (w1 w2 w3 : world) :
  same_env w1 w2 -> same_env w2 w3 -> same_env w1 w3.
Proof.
  intros (? & ? & ? & ? & evs1 & ?) (? & ? & ? & ? & evs2 & ?).
  repeat split; try congruence.
  exists (evs1 ++ evs2). rewrite app_assoc. congruence.
Qed.

Lemma fFprobeCache_Set_effect (fc : RRCache) key value (w : world) :
  exists fc' w',
    fFprobeCache_Set fc key value w = (Ok fc', w') /\
    capacity fc' = capacity fc /\ same_env w w'.
Proof.
  unfold fFprobeCache_Set, bind.
  destruct (Set_size_effect [key; value] 0 w) as (z & evs & ->).
  rewrite cache_Set_eq. eexists _, _. split; [reflexivity|]. split.
  - unfold rr_Set. by destruct (rr_evict _ _ _ _ _).
  - repeat split. by exists evs.
Qed.

Lemma load_items_effect (fc : RRCache) items (w : world) :
  exists fc' w',
    load_items fc items w = (Ok fc', w') /\
    capacity fc' = capacity fc /\ same_env w w'.
Proof.
  revert fc w. induction items as [|item items IH]; intros fc w; simpl.
  - exists fc, w. split; [done|]. split; [done|]. apply same_env_refl.
  - unfold bind.
    destruct (fFprobeCache_Set_effect fc (ci_Key item) (ci_Value item) w)
      as (fc1 & w1 & -> & Hc1 & He1).
    destruct (IH fc1 w1) as (fc2 & w2 & -> & Hc2 & He2).
    exists fc2, w2. split; [done|]. split; [congruence|].
    by eapply same_env_trans.
Qed.

Lemma load_effect (fc : RRCache) path (w : world) :
  exists fc' err w',
    load fc path w = (Ok (fc', err), w') /\
    same_env w w' /\
    capacity fc' = capacity fc /\
    (forall e, err = Some e -> fc' = fc) /\
    (fault w SysOpen path = None -> is_Some (fs w !! path) ->
     last (trace w') = Some (EvCloseFile path)).
Proof.
  unfold load, os_Open, json_Decode. run_M.
  destruct (fault w SysOpen path) as [eo|] eqn:Ho.
  { eexists _, _, _. split; [reflexivity|]. split; [by repeat split; eauto|].
    repeat split; eauto. intros; discriminate. }
  destruct (fs w !! path) as [b|] eqn:Hfile.
  2: { eexists _, _, _. split; [reflexivity|]. split; [by repeat split; eauto|].
       repeat split; eauto. intros _ [? ?]; discriminate. }
  simpl. rewrite Hfile.
  destruct (match fault w SysRead path with
            | Some e => Err (PathError "read" path e)
            | None => json_UnmarshalItems b
            end) as [items|e] eqn:Hd.
  2: { eexists _, _, _. simpl. split; [reflexivity|].
       split; [repeat split; simpl; rewrite <- !app_assoc; eauto|].
       repeat split; eauto.
       intros _ _. cbn [trace]. by rewrite last_snoc. }
  match goal with
  | |- context [load_items fc items ?w0] =>
      destruct (load_items_effect fc items w0) as (fc' & w' & -> & Hcap & Henv)
  end.
  destruct Henv as (Hg & Hfs & Hflt & Hnet & evs & Htr). simpl in *.
  eexists fc', None, _.
  split; [reflexivity|]. simpl.
  split; [repeat split; simpl; try done; rewrite Htr, <- !app_assoc; eauto|].
  repeat split; try done.
  intros _ _. cbn [trace]. by rewrite last_snoc.
Qed.

(** X3: [load] always returns and never ends the process or changes a
    file; the capacity of the cache stays what it was; whenever it
    returns an error (the file cannot be opened, cannot be read or does
    not decode) the cache is exactly what it was before the call; and
    once the file has been opened it is closed again, as the last thing
    [load] does, on the error path as on the normal one. *)
Theorem load_reads_only (fc : RRCache) path (w : world) :
  exists fc' err w',
    load fc path w = (Ok (fc', err), w') /\
    fs w' = fs w /\
    capacity fc' = capacity fc /\
    (forall e, err = Some e -> fc' = fc) /\
    (fault w SysOpen path = None -> is_Some (fs w !! path) ->
     last (trace w') = Some (EvCloseFile path)).
Proof.
  destruct (load_effect fc path w) as (fc' & err & w' & Hl & Henv & Hcap & Herr & Hlast).
  exists fc', err, w'. destruct Henv as (_ & Hfs & _). done.
Qed.

(** ** [save], continued *)

(** X4: whatever happens, [save] leaves every file alone except the one
    at [path] and its temporary file; it changes neither the faults nor
    the interfaces of the environment. *)
Theorem save_touches_two_files_only (fc : RRCache) path (w : world) r w' q :
  save fc path w = (r, w') ->
  q <> path ->
  q <> filepath_Join (filepath_Dir path)
         (filepath_Base path +:+ random_suffix (hd O (rand w))) ->
  fs w' !! q = fs w !! q /\ GOOS w' = GOOS w /\ fault w' = fault w /\
  netifs w' = netifs w.
Proof.
  intros Hsave Hq Htmp.
  save_cases.
  all: repeat split; fs_simpl; reflexivity.
Qed.


(** X6: on Windows, with a snapshot already at [path] and the new text
    written to the temporary file, [save] first removes the old
    snapshot.  When the rename then succeeds the new text is at [path]
    and the temporary file is gone; when the rename fails, [save]
    returns the rename error and the old snapshot is lost: nothing is
    left at [path]. *)
Theorem save_windows_existing_destination (fc : RRCache) path (w : world) old b :
  let dir := filepath_Dir path in
  let base := filepath_Base path in
  let tmp := filepath_Join dir (base +:+ random_suffix (hd O (rand w))) in
  tmp <> path ->
  GOOS w = "windows"%string ->
  fs w !! path = Some old ->
  fs w !! tmp = None ->
  json_MarshalItems (rr_Items fc) = Val b ->
  fault w SysCreateTemp (filepath_Join dir base) = None ->
  fault w SysWrite tmp = None ->
  fault w SysRemove path = None ->
  (fault w SysRename tmp = None ->
   exists w',
     save fc path w = (Ok None, w') /\
     fs w' !! path = Some b /\ fs w' !! tmp = None)
  /\ (forall e, fault w SysRename tmp = Some e ->
      exists w' r,
        save fc path w = (Ok (Some (LinkError "rename" tmp path e)), w') /\
        fs w' !! path = None /\
        last (trace w') = Some (EvRemove tmp r) /\
        (fault w SysRemove tmp = None -> fs w' !! tmp = None)).
Proof.
  intros dir base tmp Hne Hgoos Hold Hfree Hm Hct Hwr Hrm. subst dir base tmp.
  split.
  - intros Hrn.
    assert (Hs : exists w',
              save fc path w = (Ok None, w') /\
              fs w' !! filepath_Join (filepath_Dir path)
                         (filepath_Base path +:+ random_suffix (hd O (rand w))) = None).
    { save_cases.
      all: try congruence.
      all: try (rewrite Hgoos in *; discriminate).
      all: try fs_absurd.
      all: eexists; split; [reflexivity|]; simpl.
      all: by fs_simpl. }
    destruct Hs as (w' & Hs & Htmp). exists w'.
    split; [done|]. split; [|done].
    destruct (save_success fc path w w' Hs) as (b0 & Hm0 & Hp & _). congruence.
  - intros e Hrn.
    save_cases.
    all: try congruence.
    all: try (rewrite Hgoos in *; discriminate).
    all: try fs_absurd.
    all: eexists _, _; split; [reflexivity|]; simpl.
    all: split; [by fs_simpl|].
    all: split; [by rewrite last_snoc|].
    all: intros ?; try congruence; by fs_simpl.
Qed.

(** X7: off Windows, an error returned by [save], whichever call it
    comes from (creating, writing, renaming), means that the file at
    [path] is what it was before the call. *)
Theorem save_error_keeps_destination_off_windows (fc : RRCache) path (w : world) e w' :
  temp_name_fresh ->
  GOOS w <> "windows"%string ->
  save fc path w = (Ok (Some e), w') ->
  fs w' !! path = fs w !! path.
Proof.
  intros Hfresh Hgoos Hsave.
  pose proof (Hfresh path (hd O (rand w))) as Hne.
  apply String.eqb_neq in Hgoos.
  save_cases.
  all: try congruence.
  all: fs_simpl; try reflexivity.
  all: fs_absurd.
Qed.

(** X8: when [save] returns [nil], the whole text of the snapshot is at
    [path], the temporary file is gone since it was renamed to [path],
    and the last thing [save] did was to log the number of items
    saved. *)
Theorem save_success_installs_snapshot (fc : RRCache) path (w w' : world) :
  temp_name_fresh ->
  save fc path w = (Ok None, w') ->
  let tmp := filepath_Join (filepath_Dir path)
               (filepath_Base path +:+ random_suffix (hd O (rand w))) in
  exists b,
    json_MarshalItems (rr_Items fc) = Val b /\
    fs w' !! path = Some b /\
    fs w' !! tmp = None /\
    In (EvRename tmp path None) (trace w') /\
    last (trace w') = Some (EvLog GlobalLog (LogSavedCache (length (rr_Items fc)))).
Proof.
  intros Hfresh Hsave tmp. subst tmp.
  pose proof (Hfresh path (hd O (rand w))) as Hne.
  pose proof (save_success fc path w w' Hsave) as (b & Hm & Hfile & _).
  exists b. split; [done|]. split; [done|].
  clear Hfile.
  save_cases.
  all: split; [by fs_simpl|].
  all: split; [|by rewrite last_snoc].
  all: rewrite !in_app_iff; simpl; tauto.
Qed.

(** ** The monitor loop *)

Lemma monitor_tick_keeps (p : program) (w : world) p1 w1 :
  monitor_tick config p w = (Ok p1, w1) ->
  cache p1 = cache p /\ wg p1 = wg p /\ quit_closed p1 = quit_closed p /\
  fs w1 = fs w /\ fault w1 = fault w /\ netifs w1 = netifs w /\
  (length (Interfaces (dmsServer p)) <= length (Interfaces (dmsServer p1)))%nat /\
  (Forall is_up (Interfaces (dmsServer p)) -> Forall is_up (Interfaces (dmsServer p1))).
Proof.
  intros Htick.
  tick_cases.
  all: repeat split; try done.
  all: try match goal with
           | Hlt : Nat.ltb _ _ = true |- (_ <= _)%nat =>
               apply Nat.ltb_lt in Hlt; simpl in *; lia
           end.
  all: intros _.
  all: try (by apply up_interfaces_up).
  all: try (by constructor).
  all: match goal with
       | Hf : orb _ _ = false |- _ =>
           apply orb_false_iff in Hf as [? ?];
           apply Forall_singleton; split; lia
       end.
Qed.

(** After a tick that returned, a second tick in the same environment
    finds nothing to do. *)
Lemma monitor_tick_settled (p : program) (w : world) p1 w1 :
  monitor_tick config p w = (Ok p1, w1) ->
  monitor_tick config p1 w1 = (Ok p1, with_events w1 [EvSleep; EvInterfaces None]).
Proof.
  intros Htick.
  tick_cases.
  all: try congruence.
  all: try match goal with
           | Hlt : Nat.ltb ?x ?x = true |- _ => rewrite Nat.ltb_irrefl in Hlt; discriminate
           end.
  all: try by rewrite <- !app_assoc.
Qed.

Lemma monitor_loop_settled n (p : program) (w : world) :
  monitor_tick config p w = (Ok p, with_events w [EvSleep; EvInterfaces None]) ->
  monitor_loop config n p w =
    (Ok p, with_events w (concat (replicate n [EvSleep; EvInterfaces None]))).
Proof.
  revert w. induction n as [|n IH]; intros w Hset; simpl.
  - unfold ret. by rewrite with_events_nil.
  - unfold bind at 1. rewrite Hset.
    rewrite IH by (by apply monitor_tick_settled in Hset).
    by rewrite with_events_app.
Qed.

(** X9: a tick of the monitor that returns leaves the cache, the wait
    group, the quit channel and the files as they were; the serving
    instance is never bound to fewer interfaces than before, and if the
    bound interfaces were all up they still are. *)
Theorem monitor_tick_keeps_cache_and_bindings (p : program) (w : world) p1 w1 :
  monitor_tick config p w = (Ok p1, w1) ->
  cache p1 = cache p /\ wg p1 = wg p /\ quit_closed p1 = quit_closed p /\
  fs w1 = fs w /\
  (length (Interfaces (dmsServer p)) <= length (Interfaces (dmsServer p1)))%nat /\
  (Forall is_up (Interfaces (dmsServer p)) -> Forall is_up (Interfaces (dmsServer p1))).
Proof.
  intros Htick.
  destruct (monitor_tick_keeps p w p1 w1 Htick) as (? & ? & ? & ? & _ & _ & ? & ?).
  done.
Qed.

(** X10: while the interfaces of the machine stay the same, the monitor
    loop replaces the serving instance at most once: whatever the number
    of iterations, the program they end with is the one the first
    iteration produced, and every later iteration only sleeps and lists
    the interfaces. *)
Theorem monitor_loop_replaces_at_most_once n (p : program) (w : world) p' w' :
  monitor_loop config (S n) p w = (Ok p', w') ->
  exists w1,
    monitor_tick config p w = (Ok p', w1) /\
    w' = with_events w1 (concat (replicate n [EvSleep; EvInterfaces None])).
Proof.
  simpl. unfold bind at 1.
  destruct (monitor_tick config p w) as [[p1|c] w1] eqn:Htick; [|done].
  rewrite monitor_loop_settled by (by apply monitor_tick_settled in Htick).
  intros Heq. simplify_eq. by exists w1.
Qed.

(** ** [makeIpNets], continued *)

Lemma strings_Split_length s sep :
  length (strings_Split s sep) = S (count_char sep s).
Proof.
  induction s as [|c s IH]; simpl; [done|].
  destruct (Ascii.eqb c sep); simpl; [by rewrite IH|].
  destruct (strings_Split s sep); simpl in *; lia.
Qed.

Lemma element_cases (el : string) :
  (exists n, element_net el = Some n /\ element_log (any:=any) el = []) \/
  (element_net el = None /\ exists m, element_log (any:=any) el = [EvLog GlobalLog m]).
Proof.
  unfold element_net, element_log.
  destruct (net_ParseIP el);
    [destruct (net_ParseCIDR (el +:+ "/32"))|destruct (net_ParseCIDR el)]; simpl; eauto.
Qed.

Lemma element_net_or_log (els : list string) :
  (length (omap element_net els) +
   length (flat_map (element_log (any:=any)) els))%nat = length els
  /\ Forall (fun e : event => exists m, e = EvLog GlobalLog m) (flat_map element_log els).
Proof.
  induction els as [|el els [IH1 IH2]]; simpl; [by split|].
  rewrite length_app.
  destruct (element_cases el) as [(n & -> & ->)|(-> & m & ->)]; simpl.
  - split; [f_equal; exact IH1|done].
  - split; [rewrite Nat.add_succ_r; f_equal; exact IH1|]. constructor; eauto.
Qed.

(** X11: on a non-empty list, [makeIpNets] accounts for every element
    exactly once: the networks it returns and the lines it logs add up
    to the number of commas plus one; no returned network is [nil];
    nothing but log lines is produced; and when no element parses the
    result is the empty list, which allows nobody, not the two universal
    networks of the empty string. *)
Theorem makeIpNets_one_outcome_per_element (s : string) (w : world) :
  s <> ""%string ->
  exists nets evs,
    makeIpNets s w = (Ok nets, with_events w evs) /\
    (length nets + length evs)%nat = S (count_char "," s) /\
    Forall is_Some nets /\
    Forall (fun e : event => exists m, e = EvLog GlobalLog m) evs /\
    ((forall el, In el (strings_Split s ",") -> element_net el = None) -> nets = []).
Proof.
  intros Hs. unfold makeIpNets.
  destruct s as [|c s']; [done|].
  replace (String.length (String c s') <? 1)%nat with false by reflexivity.
  cbv beta iota zeta. rewrite makeIpNets_loop_eq.
  set (els := strings_Split (String c s') ",").
  destruct (element_net_or_log els) as [Hlen Hlog].
  eexists _, _. split; [reflexivity|].
  split; [|split; [|split]].
  - rewrite app_nil_l, length_fmap, Hlen. apply strings_Split_length.
  - rewrite app_nil_l. apply Forall_fmap, Forall_forall. intros x _. by eexists.
  - done.
  - intros Hnone. rewrite app_nil_l.
    replace (omap element_net els) with ([] : list IPNet); [done|].
    symmetry. clear Hlen Hlog. induction els as [|el els IH]; simpl; [done|].
    rewrite (Hnone el) by (by left). apply IH. intros el' Hin. apply Hnone. by right.
Qed.

(** ** [Start] and [Stop], continued *)

(** X12: in every state [Stop] and the goroutine of [Start] can reach,
    the wait-group counter is 1 until the goroutine has called [Done]
    and 0 from then on, never negative; the goroutine gets past
    [<-p.quit] only after [Stop] has closed the channel; and the quit
    channel is closed only after the save of the cache was attempted. *)
Theorem Start_Stop_ordering (p : program) (w : world) n s :
  wg p = 0 -> trace w = [] ->
  nsteps (step config) n (Start p w) s ->
  let tr := trace (sys_world s) in
  (wg (sys_prog s) = 1 \/ wg (sys_prog s) = 0)
  /\ (wg (sys_prog s) = 0 <-> sys_bg s = BgExited)
  /\ (sys_bg s = BgExited <-> existsb is_WgDone tr = true)
  /\ (quit_closed (sys_prog s) = existsb is_CloseQuit tr)
  /\ ((3 <= bg_rank (sys_bg s))%nat -> quit_closed (sys_prog s) = true)
  /\ (existsb is_CloseQuit tr = true -> save_attempted tr).
Proof.
  intros Hwg Htr Hsteps tr. subst tr.
  pose proof (Stop_inv_nsteps w 0 n _ s (Stop_inv_init p w Hwg Htr) Hsteps)
    as (Hf & Hwg' & Hq & Hbq & Hsb & Hn & Hct & Hcq & Hwd & Hret & Hex & Hok).
  unfold save_attempted. rewrite Hwg', Hq, Hct, Hcq, Hwd.
  clear Hwg' Hq Hct Hcq Hwd Hret Hex Hok Hn Hf.
  destruct (sys_bg s), (sys_stop s); simpl in *.
  all: repeat split; try done; try lia; intros; try done; try lia.
  all: exfalso; lia.
Qed.

(** ** [runErr] *)





End Properties.

(** * The device icons *)

Section IconProperties.
Context {any : Type} `{!StrConv} `{!Imaging}.
Variable defaultIcon : bytes.
Variable DeviceIcon : string.

Abbreviation world := (world any).

Ltac run_M :=
  unfold log_Fatal in *;
  unfold log_Print, os_Exit, file_Close in *;
  unfold bind, ret, emit, get_world, set_fs, get_fault, next_rand,
    with_events in *;
  simpl in *.












(** X16: [readIcon] on a configured picture file that cannot be opened
    panics: the process ends with status 2 and nothing else is done.
    When the file opens but cannot be read or decoded, the file is
    closed first and then the process ends the same way.  With no size
    configured the closure returns no icon and the file is never
    opened. *)
Theorem readIcon_unreadable_file_panics (w : world) size :
  DeviceIcon <> ""%string ->
  (forall e, (fault w SysOpen DeviceIcon = Some e \/
              fault w SysOpen DeviceIcon = None /\ fs w !! DeviceIcon = None /\ e = ENOENT) ->
     readIcon defaultIcon DeviceIcon size w =
       (Exited 2,
        with_events w
          [EvOpen DeviceIcon (Err (PathError "open" DeviceIcon e));
           EvLog GlobalLog (LogErrf "panic: " (PathError "open" DeviceIcon e));
           EvExit 2]))
  /\ (forall b err,
        fault w SysOpen DeviceIcon = None -> fs w !! DeviceIcon = Some b ->
        (exists e, fault w SysRead DeviceIcon = Some e /\
                   err = PathError "read" DeviceIcon e) \/
        (fault w SysRead DeviceIcon = None /\ image_Decode b = Err err) ->
        readIcon defaultIcon DeviceIcon size w =
          (Exited 2,
           with_events w
             [EvOpen DeviceIcon (Val DeviceIcon); EvIcons (Some err);
              EvCloseFile DeviceIcon;
              EvLog GlobalLog (LogErrf "panic: " err); EvExit 2]))
  /\ newDmsServer_Icons defaultIcon DeviceIcon [] w = (Ok [], w).
Proof.
  intros Hd. apply String.eqb_neq in Hd.
  split; [|split].
  - intros e Hbad.
    unfold readIcon, getIconReader, os_Open, go_panic. rewrite Hd. run_M.
    destruct Hbad as [->|(-> & -> & ->)]; simpl; by rewrite <- !app_assoc.
  - intros b err Ho Hb Hbad.
    unfold readIcon, getIconReader, reader_Decode, reader_Close, os_Open, go_panic.
    rewrite Hd. run_M. rewrite Ho, Hb. simpl.
    destruct Hbad as [(e & -> & ->)|(-> & Hdec)]; simpl.
    + by rewrite <- !app_assoc.
    + rewrite Hb, Hdec. simpl. by rewrite <- !app_assoc.
  - reflexivity.
Qed.

End IconProperties.

(** * The reference instances satisfy what the theorems assume *)

Lemma string_app_nil_r (s : string) : (s +:+ "")%string = s.
Proof.
  induction s as [|c s IH]; [reflexivity|].
  change (String c (s +:+ "") = String c s). by f_equal.
Qed.

Lemma random_suffix_nonempty n : random_suffix n <> ""%string.
Proof. unfold random_suffix. by destruct (Nat.to_uint n). Qed.

Lemma flat_temp_name_fresh : temp_name_fresh.
Proof.
  intros path n. simpl. intros Heq.
  rewrite <- (string_app_nil_r path) in Heq at 2.
  apply (inj (String.app path)) in Heq.
  by apply random_suffix_nonempty in Heq.
Qed.

Lemma char_all_fit : all_fit (any:=ascii).
Proof.
  intros v b. simpl. unfold char_marshal.
  destruct (Ascii.eqb v "?"); intros Hb; simplify_eq. simpl. lia.
Qed.

Lemma char_codec_roundtrip : codec_roundtrip (any:=ascii).
Proof.
  intros items. simpl.
  induction items as [|[k v] items IH]; intros b Hb; simpl in *.
  - by simplify_eq.
  - unfold char_marshal in Hb.
    destruct (Ascii.eqb k "?"); [done|].
    destruct (Ascii.eqb v "?"); [done|].
    destruct (char_marshal_items items) as [r|e]; [|done].
    simplify_eq. simpl. rewrite (IH r eq_refl).
    by rewrite !ascii_of_byte_of_ascii.
Qed.

Lemma c_one_reachable : reachable c_one.
Proof.
  eapply (reachable_Set c_empty "k"%char "v"%char w_linux).
  - by apply reachable_New.
  - reflexivity.
Qed.

(** * The theorems at concrete inputs *)

Lemma load_missing_file_witness :
  fs w_linux !! "cache"%string = None /\
  load c_empty "cache" w_linux =
    (Ok (c_empty, Some (PathError "open" "cache" ENOENT)),
     with_events w_linux [EvOpen "cache" (Err (PathError "open" "cache" ENOENT))]).
Proof.
  split; [reflexivity|].
  exact (proj1 (load_missing_file_returns_open_error cfg c_empty p0 "cache" w_linux eq_refl)).
Defined.

Lemma load_missing_file_counterexample :
  fs w_linux !! "cache"%string = None /\
  forall fc' w', load c_empty "cache" w_linux <> (Ok (fc', None), w').
Proof.
  split; [reflexivity|]. intros fc' w' Heq.
  assert (Hl : (load c_empty "cache" w_linux).1 =
               Ok (c_empty, Some (PathError "open" "cache" ENOENT)))
    by (vm_compute; reflexivity).
  rewrite Heq in Hl. discriminate.
Qed.

Lemma Stop_witness :
  wg p0 = 0 /\ trace w_linux = [] /\
  nsteps (step cfg) 11 (Start p0 w_linux) (run_sched cfg full_run (Start p0 w_linux)) /\
  sys_exited (run_sched cfg full_run (Start p0 w_linux)) = false /\
  sys_stop (run_sched cfg full_run (Start p0 w_linux)) = StReturned None.
Proof.
  assert (Hrun : nsteps (step cfg) 11 (Start p0 w_linux)
                   (run_sched cfg full_run (Start p0 w_linux))).
  { apply (run_sched_nsteps cfg full_run). vm_compute. reflexivity. }
  split; [reflexivity|]. split; [reflexivity|]. split; [exact Hrun|].
  destruct (Stop_saves_and_waits_unless_close_fails cfg p0 w_linux 11 _
              eq_refl eq_refl Hrun) as (_ & Hok & _).
  destruct (Hok eq_refl) as (Hex & _ & _).
  split; [exact Hex|]. vm_compute. reflexivity.
Defined.

Lemma Stop_close_error_counterexample :
  fault w_close_fails SysServerClose "" = Some EIO /\
  forall n s, nsteps (step cfg) n (Start p0 w_close_fails) s ->
    ~ save_attempted (trace (sys_world s)) /\
    existsb is_CloseQuit (trace (sys_world s)) = false /\
    forall r, sys_stop s <> StReturned r.
Proof.
  split; [reflexivity|]. intros n s Hs.
  destruct (Stop_close_failure cfg p0 w_close_fails EIO n s eq_refl eq_refl eq_refl Hs)
    as (H1 & H2 & H3 & _).
  done.
Qed.

Lemma save_write_failure_witness :
  temp_name_fresh /\
  exists w' r,
    save c_one "cache" w_write_fails =
      (Ok (Some (PathError "write" "cache7" ENOSPC)), w') /\
    last (trace w') = Some (EvRemove "cache7" r) /\
    (r = None \/ fault w_write_fails SysRemove "cache7" = None -> fs w' !! "cache7"%string = None) /\
    fs w' !! "cache"%string = fs w_write_fails !! "cache"%string.
Proof.
  split; [apply flat_temp_name_fresh|].
  destruct (save_write_failure_leaves_destination c_one "cache" w_write_fails
              flat_temp_name_fresh) as [Hfail _].
  apply (Hfail "cache7"%string
           (os_CreateTemp "." "cache" w_write_fails).2
           (PathError "write" "cache7" ENOSPC)
           (json_Encode "cache7" (rr_Items c_one)
              (os_CreateTemp "." "cache" w_write_fails).2).2);
    vm_compute; reflexivity.
Defined.

Lemma save_error_removes_temp_witness :
  os_CreateTemp "." "cache" w_rename_fails =
    (Ok (Val "cache7"%string), (os_CreateTemp "." "cache" w_rename_fails).2) /\
  save c_one "cache" w_rename_fails =
    (Ok (Some (LinkError "rename" "cache7" "cache" EACCES)),
     (save c_one "cache" w_rename_fails).2) /\
  exists r,
    last (trace (save c_one "cache" w_rename_fails).2) = Some (EvRemove "cache7" r) /\
    (r = None \/ fault w_rename_fails SysRemove "cache7" = None ->
     fs (save c_one "cache" w_rename_fails).2 !! "cache7"%string = None).
Proof.
  assert (H1 : os_CreateTemp "." "cache" w_rename_fails =
    (Ok (Val "cache7"%string), (os_CreateTemp "." "cache" w_rename_fails).2))
    by (vm_compute; reflexivity).
  assert (H2 : save c_one "cache" w_rename_fails =
    (Ok (Some (LinkError "rename" "cache7" "cache" EACCES)),
     (save c_one "cache" w_rename_fails).2)) by (vm_compute; reflexivity).
  split; [exact H1|]. split; [exact H2|].
  exact (save_error_removes_temp c_one "cache" w_rename_fails "cache7" _ _ _ H1 H2).
Defined.

Lemma save_windows_witness :
  temp_name_fresh /\ GOOS w_windows = "windows"%string /\
  fs w_windows !! "cache"%string = None /\
  fault w_windows SysRemove "cache" = None /\
  exists w' r,
    save c_one "cache" w_windows = (Ok (Some (PathError "remove" "cache" ENOENT)), w') /\
    trace w' =
      trace (json_Encode "cache7" (rr_Items c_one)
               (os_CreateTemp "." "cache" w_windows).2).2 ++
      [EvCloseFile "cache7"; EvRemove "cache" (Some (PathError "remove" "cache" ENOENT));
       EvRemove "cache7" r] /\
    fs w' !! "cache"%string = None.
Proof.
  split; [apply flat_temp_name_fresh|].
  split; [reflexivity|]. split; [reflexivity|]. split; [reflexivity|].
  apply (save_windows_missing_destination c_one "cache" w_windows "cache7"
           (os_CreateTemp "." "cache" w_windows).2
           (json_Encode "cache7" (rr_Items c_one)
              (os_CreateTemp "." "cache" w_windows).2).2
           flat_temp_name_fresh);
    vm_compute; reflexivity.
Defined.

Lemma save_then_load_witness :
  codec_roundtrip (any:=ascii) /\ all_fit (any:=ascii) /\ reachable c_one /\
  save c_one "cache" w_linux = (Ok None, (save c_one "cache" w_linux).2) /\
  exists fc' w2,
    load (rr_New (capacity c_one)) "cache" (save c_one "cache" w_linux).2 =
      (Ok (fc', None), w2) /\
    fc' = c_one /\
    rr_Items fc' = rr_Items c_one /\
    (forall key, fFprobeCache_Get fc' key = fFprobeCache_Get c_one key).
Proof.
  assert (Hs : save c_one "cache" w_linux = (Ok None, (save c_one "cache" w_linux).2))
    by (vm_compute; reflexivity).
  split; [apply char_codec_roundtrip|]. split; [apply char_all_fit|].
  split; [apply c_one_reachable|]. split; [exact Hs|].
  exact (save_then_load_reproduces_items c_one "cache" w_linux _
           char_codec_roundtrip char_all_fit c_one_reachable Hs eq_refl eq_refl).
Defined.

Lemma Set_marshal_failure_witness :
  marshal_fits "?"%char /\ marshal_fits "v"%char /\
  fFprobeCache_Set c_empty "?"%char "v"%char w_linux =
    cache_Set c_empty "?"%char "v"%char 1
      (with_events w_linux
         [EvLog GlobalLog (LogCouldNotMarshal "?"%char (JSONError "unsupported value"))]).
Proof.
  split; [apply char_all_fit|]. split; [apply char_all_fit|].
  exact (proj1 (Set_marshal_failure_counts_zero c_empty "?"%char "v"%char w_linux
                  (char_all_fit _) (char_all_fit _))).
Defined.

Lemma monitor_tick_witness :
  (emit EvSleep ;;; getInterfaces (IfName cfg)) w_linux =
    (Ok [eth0; wlan0], with_events w_linux [EvSleep; EvInterfaces None]) /\
  (length (Interfaces (dmsServer p0)) < length [eth0; wlan0])%nat /\
  monitor_tick cfg p0 w_linux =
    (Ok (mkProgram (mkServer [eth0; wlan0]) (cache p0) (wg p0) (quit_closed p0)),
     with_events (with_events w_linux [EvSleep; EvInterfaces None])
       [EvServerClose [eth0] None; EvListen None; EvIcons None;
        EvServerInit [eth0; wlan0] None; EvGoServerRun [eth0; wlan0]]).
Proof.
  assert (Hget : (emit EvSleep ;;; getInterfaces (IfName cfg)) w_linux =
    (Ok [eth0; wlan0], with_events w_linux [EvSleep; EvInterfaces None]))
    by (vm_compute; reflexivity).
  assert (Hlt : (length (Interfaces (dmsServer p0)) < length [eth0; wlan0])%nat)
    by (simpl; lia).
  split; [exact Hget|]. split; [exact Hlt|].
  destruct (monitor_tick_replaces_iff_more cfg p0 w_linux _ _ Hget)
    as (_ & _ & _ & Hreplace).
  exact (Hreplace Hlt eq_refl eq_refl eq_refl eq_refl).
Defined.

Lemma load_reinserts_witness :
  fs w_snapshot !! "cache"%string = Some [byte_of_ascii "k"; byte_of_ascii "v"] /\
  fault w_snapshot SysOpen "cache" = None /\
  fault w_snapshot SysRead "cache" = None /\
  json_UnmarshalItems [byte_of_ascii "k"; byte_of_ascii "v"] =
    Val [mkCacheItem "k"%char "v"%char] /\
  (load c_empty "cache" w_snapshot).1 =
    Ok ((rr_Set c_empty "k"%char "v"%char 2 []).1, None).
Proof.
  assert (Hf : fs w_snapshot !! "cache"%string =
               Some [byte_of_ascii "k"; byte_of_ascii "v"]) by (vm_compute; reflexivity).
  assert (Hd : json_UnmarshalItems [byte_of_ascii "k"; byte_of_ascii "v"] =
               Val [mkCacheItem "k"%char "v"%char]) by reflexivity.
  split; [exact Hf|]. split; [reflexivity|]. split; [reflexivity|]. split; [exact Hd|].
  rewrite (load_reinserts_each_record c_empty "cache" _ _ w_snapshot Hf eq_refl eq_refl Hd).
  - reflexivity.
  - repeat constructor; apply char_all_fit.
Defined.

Lemma makeIpNets_witness :
  net_ParseCIDR "0.0.0.0/0" = Val ([0; 0; 0; 0], net4_all) /\
  net_ParseCIDR "::/0" = Val (repeat 0 16, net6_all) /\
  "1.2.3.4,zz"%string <> ""%string /\
  makeIpNets (any:=ascii) "" w_linux = (Ok [Some net4_all; Some net6_all], w_linux) /\
  makeIpNets (any:=ascii) "1.2.3.4,zz" w_linux =
    (Ok [Some {| ipn_IP := [1; 2; 3; 4]; ipn_Mask := [255; 255; 255; 255] |}],
     with_events w_linux [EvLog GlobalLog (LogUnableParseExpr "zz")]).
Proof.
  destruct (makeIpNets_universal_or_parsed (any:=ascii) "1.2.3.4,zz" w_linux)
    as (Hempty & Hlist & _).
  split; [reflexivity|]. split; [reflexivity|]. split; [discriminate|].
  split.
  - exact (Hempty _ _ eq_refl eq_refl).
  - exact (Hlist ltac:(discriminate)).
Defined.

(** * The further properties at concrete inputs *)

Lemma getInterfaces_all_witness :
  fault w_linux SysInterfaces "" = None /\
  getInterfaces "" w_linux = (Ok [eth0; wlan0], with_events w_linux [EvInterfaces None]).
Proof.
  split; [reflexivity|].
  exact (proj1 (proj1 (getInterfaces_all_keeps_up_interfaces w_linux) eq_refl)).
Defined.

Lemma getInterfaces_named_witness :
  "tun0"%string <> ""%string /\
  fault w_linux SysInterfaces "tun0" = None /\
  getInterfaces "tun0" w_linux = (Ok [], with_events w_linux [EvInterfaces None]).
Proof.
  split; [discriminate|]. split; [reflexivity|].
  exact (proj2 (proj2 (getInterfaces_named_interface "tun0" w_linux
                         ltac:(discriminate) eq_refl))).
Defined.

Lemma load_reads_only_witness :
  (load c_empty "cache" w_truncated).1 =
    Ok (c_empty, Some (JSONError "unexpected end of JSON input")) /\
  fs (load c_empty "cache" w_truncated).2 = fs w_truncated /\
  last (trace (load c_empty "cache" w_truncated).2) = Some (EvCloseFile "cache").
Proof.
  destruct (load_reads_only c_empty "cache" w_truncated)
    as (fc' & err & w' & Hl & Hfs & _ & _ & Hlast).
  split; [vm_compute; reflexivity|].
  rewrite Hl. split; [exact Hfs|].
  apply Hlast; [reflexivity|]. eexists. vm_compute. reflexivity.
Defined.

Lemma save_touches_two_files_witness :
  "cache"%string <> "other"%string /\
  fs (save c_one "other" w_snapshot).2 !! "cache"%string = fs w_snapshot !! "cache"%string.
Proof.
  split; [discriminate|].
  refine (proj1 (save_touches_two_files_only c_one "other" w_snapshot
                   (save c_one "other" w_snapshot).1 (save c_one "other" w_snapshot).2
                   "cache" _ _ _)).
  - apply surjective_pairing.
  - discriminate.
  - vm_compute. discriminate.
Defined.


Lemma save_windows_existing_witness :
  GOOS (w_windows_snapshot (fail_on SysRename "cache7" EACCES)) = "windows"%string /\
  fs (w_windows_snapshot (fail_on SysRename "cache7" EACCES)) !! "cache"%string =
    Some [byte_of_ascii "o"; byte_of_ascii "l"] /\
  exists w' r,
    save c_one "cache" (w_windows_snapshot (fail_on SysRename "cache7" EACCES)) =
      (Ok (Some (LinkError "rename" "cache7" "cache" EACCES)), w') /\
    fs w' !! "cache"%string = None /\
    last (trace w') = Some (EvRemove "cache7" r) /\
    (fault (w_windows_snapshot (fail_on SysRename "cache7" EACCES)) SysRemove "cache7" = None ->
     fs w' !! "cache7"%string = None).
Proof.
  split; [reflexivity|]. split; [vm_compute; reflexivity|].
  refine (proj2 (save_windows_existing_destination c_one "cache"
                   (w_windows_snapshot (fail_on SysRename "cache7" EACCES))
                   [byte_of_ascii "o"; byte_of_ascii "l"]
                   [byte_of_ascii "k"; byte_of_ascii "v"]
                   _ _ _ _ _ _ _ _) EACCES _).
  all: try (vm_compute; reflexivity).
  vm_compute. discriminate.
Defined.

Lemma save_error_keeps_destination_witness :
  temp_name_fresh /\
  GOOS (w_linux_snapshot (fail_on SysRename "cache7" EACCES)) <> "windows"%string /\
  save c_one "cache" (w_linux_snapshot (fail_on SysRename "cache7" EACCES)) =
    (Ok (Some (LinkError "rename" "cache7" "cache" EACCES)),
     (save c_one "cache" (w_linux_snapshot (fail_on SysRename "cache7" EACCES))).2) /\
  fs (save c_one "cache" (w_linux_snapshot (fail_on SysRename "cache7" EACCES))).2
    !! "cache"%string =
  Some [byte_of_ascii "o"; byte_of_ascii "l"].
Proof.
  assert (Hg : GOOS (w_linux_snapshot (fail_on SysRename "cache7" EACCES)) <> "windows"%string)
    by discriminate.
  assert (Hs : save c_one "cache" (w_linux_snapshot (fail_on SysRename "cache7" EACCES)) =
    (Ok (Some (LinkError "rename" "cache7" "cache" EACCES)),
     (save c_one "cache" (w_linux_snapshot (fail_on SysRename "cache7" EACCES))).2))
    by (vm_compute; reflexivity).
  split; [apply flat_temp_name_fresh|]. split; [exact Hg|]. split; [exact Hs|].
  refine (eq_trans (save_error_keeps_destination_off_windows c_one "cache" _ _ _
                      flat_temp_name_fresh Hg Hs) _).
  vm_compute. reflexivity.
Defined.

Lemma save_success_witness :
  temp_name_fresh /\
  save c_one "cache" w_linux = (Ok None, (save c_one "cache" w_linux).2) /\
  exists b,
    json_MarshalItems (rr_Items c_one) = Val b /\
    fs (save c_one "cache" w_linux).2 !! "cache"%string = Some b /\
    fs (save c_one "cache" w_linux).2 !! "cache7"%string = None /\
    In (EvRename "cache7" "cache" None) (trace (save c_one "cache" w_linux).2) /\
    last (trace (save c_one "cache" w_linux).2) =
      Some (EvLog GlobalLog (LogSavedCache (length (rr_Items c_one)))).
Proof.
  assert (Hs : save c_one "cache" w_linux = (Ok None, (save c_one "cache" w_linux).2))
    by (vm_compute; reflexivity).
  split; [apply flat_temp_name_fresh|]. split; [exact Hs|].
  exact (save_success_installs_snapshot c_one "cache" w_linux _ flat_temp_name_fresh Hs).
Defined.

Lemma monitor_tick_keeps_witness :
  monitor_tick cfg p0 w_linux =
    (Ok (mkProgram (mkServer [eth0; wlan0]) c_one 0 false), (monitor_tick cfg p0 w_linux).2) /\
  cache (mkProgram (mkServer [eth0; wlan0]) c_one 0 false) = cache p0 /\
  (length (Interfaces (dmsServer p0)) <= length [eth0; wlan0])%nat.
Proof.
  assert (Ht : monitor_tick cfg p0 w_linux =
    (Ok (mkProgram (mkServer [eth0; wlan0]) c_one 0 false), (monitor_tick cfg p0 w_linux).2))
    by (vm_compute; reflexivity).
  split; [exact Ht|].
  destruct (monitor_tick_keeps_cache_and_bindings cfg p0 w_linux _ _ Ht)
    as (Hc & _ & _ & _ & Hlen & _).
  split; [exact Hc|exact Hlen].
Defined.

Lemma monitor_loop_witness :
  monitor_loop cfg 3 p0 w_linux =
    (Ok (mkProgram (mkServer [eth0; wlan0]) c_one 0 false), (monitor_loop cfg 3 p0 w_linux).2) /\
  exists w1,
    monitor_tick cfg p0 w_linux =
      (Ok (mkProgram (mkServer [eth0; wlan0]) c_one 0 false), w1) /\
    (monitor_loop cfg 3 p0 w_linux).2 =
      with_events w1 [EvSleep; EvInterfaces None; EvSleep; EvInterfaces None].
Proof.
  assert (Hl : monitor_loop cfg 3 p0 w_linux =
    (Ok (mkProgram (mkServer [eth0; wlan0]) c_one 0 false), (monitor_loop cfg 3 p0 w_linux).2))
    by (vm_compute; reflexivity).
  split; [exact Hl|].
  exact (monitor_loop_replaces_at_most_once cfg 2 p0 w_linux _ _ Hl).
Defined.

Lemma makeIpNets_outcomes_witness :
  "1.2.3.4,zz"%string <> ""%string /\
  exists nets evs,
    makeIpNets (any:=ascii) "1.2.3.4,zz" w_linux = (Ok nets, with_events w_linux evs) /\
    (length nets + length evs)%nat = 2%nat /\
    Forall is_Some nets /\
    Forall (fun e : event ascii => exists m, e = EvLog GlobalLog m) evs /\
    ((forall el, In el ["1.2.3.4"%string; "zz"%string] -> element_net el = None) -> nets = []).
Proof.
  split; [discriminate|].
  exact (makeIpNets_one_outcome_per_element (any:=ascii) "1.2.3.4,zz" w_linux
           ltac:(discriminate)).
Defined.

Lemma Start_Stop_ordering_witness :
  wg p0 = 0 /\ trace w_linux = [] /\
  nsteps (step cfg) 11 (Start p0 w_linux) (run_sched cfg full_run (Start p0 w_linux)) /\
  wg (sys_prog (run_sched cfg full_run (Start p0 w_linux))) = 0 /\
  sys_bg (run_sched cfg full_run (Start p0 w_linux)) = BgExited /\
  save_attempted (trace (sys_world (run_sched cfg full_run (Start p0 w_linux)))).
Proof.
  assert (Hrun : nsteps (step cfg) 11 (Start p0 w_linux)
                   (run_sched cfg full_run (Start p0 w_linux))).
  { apply (run_sched_nsteps cfg full_run). vm_compute. reflexivity. }
  split; [reflexivity|]. split; [reflexivity|]. split; [exact Hrun|].
  destruct (Start_Stop_ordering cfg p0 w_linux 11 _ eq_refl eq_refl Hrun)
    as (_ & Hwg & _ & _ & _ & Hsave).
  assert (Hbg : sys_bg (run_sched cfg full_run (Start p0 w_linux)) = BgExited)
    by (vm_compute; reflexivity).
  split; [exact (proj2 Hwg Hbg)|]. split; [exact Hbg|].
  apply Hsave. vm_compute. reflexivity.
Defined.



Lemma readIcon_unreadable_witness :
  "logo.png"%string <> ""%string /\
  fs w_icon !! "logo.png"%string = None /\
  readIcon icon_bytes "logo.png" 48 w_icon =
    (Exited 2,
     with_events w_icon
       [EvOpen "logo.png" (Err (PathError "open" "logo.png" ENOENT));
        EvLog GlobalLog (LogErrf "panic: " (PathError "open" "logo.png" ENOENT));
        EvExit 2]).
Proof.
  split; [discriminate|]. split; [reflexivity|].
  exact (proj1 (readIcon_unreadable_file_panics icon_bytes "logo.png" w_icon 48
                  ltac:(discriminate))
           ENOENT (or_intror (conj eq_refl (conj eq_refl eq_refl)))).
Defined.

